(** * hybrid-social-media-app: the domain record declarations and the App counter

    The repository consists of [src/types/index.ts], a catalogue of
    TypeScript interface declarations (User, Post, Comment, Message,
    Conversation, Notification, the API envelopes, the forms, the
    session snapshot, the authentication context), of [src/main.tsx],
    which mounts the component tree, and of the [App] component it
    imports, the starter component with one piece of state: a counter
    incremented by a button.  No function constructs, validates or
    traverses a record.

    Embedding.
    - [string] is Rocq's [string]; [boolean] is [bool]; [T[]] is [list T].
    - [number] is the IEEE 754 binary64 type of JavaScript: the kernel's
      primitive [float], whose [+] is the addition that [count + 1]
      executes.
    - a property marked [?] is an [option]: [None] is the absent property.
    - a union of string literals is an inductive type with one
      constructor per literal, together with the literal it stands for.
    - an interface is a record, in a module of the interface's name, so
      that the fields keep the names of the source. *)

From Stdlib Require Import ZArith List String Bool Lia Lra Floats QArith Qround Qpower.
Import ListNotations.

#[local] Open Scope string_scope.
#[local] Open Scope Z_scope.

(** ** Primitive types *)

(** [number]: every numeric property and the counter state. *)
Definition number : Type := float.
Bind Scope float_scope with number.

(** [Date]: a JavaScript date object wraps a time value, a [number] of
    milliseconds since the epoch. *)
Record Date : Type := mkDate { getTime : number }.

(** The number a decimal integer literal denotes: the binary64 value
    nearest to the integer (ties to even), as [binary_normalize]
    computes it. *)
Definition Z2SF (n : Z) : spec_float := binary_normalize prec emax n 0 false.
Definition number_of_Z (n : Z) : number := SF2Prim (Z2SF n).

(** The real number a finite [number] stands for; [None] for NaN and the
    infinities. *)
Definition real_value (x : number) : option Q :=
  match Prim2SF x with
  | S754_zero _ => Some 0%Q
  | S754_finite s m e => Some (inject_Z (cond_Zopp s (Zpos m)) * 2 ^ e)%Q
  | S754_infinity _ | S754_nan => None
  end.

(** [x] is finite and its value is the rational [q]. *)
Definition has_value (x : number) (q : Q) : Prop :=
  match real_value x with
  | Some v => (v == q)%Q
  | None => False
  end.

(** [x] is finite and [lo <= x <= hi]. *)
Definition in_range (lo hi : Q) (x : number) : Prop :=
  match real_value x with
  | Some v => (lo <= v <= hi)%Q
  | None => False
  end.

(** ** Interface declarations as data

    Besides its record, every interface keeps the table of its
    declaration: the property names in source order, each with its [?]
    mark.  [keys] lists the properties that hold a value in a given
    value of the interface. *)

Record FieldDecl : Type := mkField { name : string; optional : bool }.

Definition req (n : string) : FieldDecl := mkField n false.
Definition opt (n : string) : FieldDecl := mkField n true.

Class Interface (T : Type) : Type := {
  fields : list FieldDecl;
  keys : T -> list string
}.

Definition key_if_present {A : Type} (k : string) (v : option A) : list string :=
  match v with
  | Some _ => [k]
  | None => []
  end.

Definition required_names (fs : list FieldDecl) : list string :=
  map name (filter (fun f => negb (optional f)) fs).

Definition optional_names (fs : list FieldDecl) : list string :=
  map name (filter optional fs).

(** ** String literal unions *)

(** [Message.type : 'text' | 'image' | 'file'] *)
Module MessageType.
Inductive t : Type := text | image | file.
Definition tag (v : t) : string :=
  match v with
  | text => "text"
  | image => "image"
  | file => "file"
  end.
Definition all : list t := [text; image; file].
Definition parse (s : string) : option t :=
  find (fun v => String.eqb (tag v) s) all.
End MessageType.

(** [Notification.type : 'like' | 'comment' | 'follow' | 'mention' | 'message'] *)
Module NotificationType.
Inductive t : Type := like | comment | follow | mention | message.
Definition tag (v : t) : string :=
  match v with
  | like => "like"
  | comment => "comment"
  | follow => "follow"
  | mention => "mention"
  | message => "message"
  end.
Definition all : list t := [like; comment; follow; mention; message].
Definition parse (s : string) : option t :=
  find (fun v => String.eqb (tag v) s) all.
End NotificationType.

(** [SearchFilters.type : 'users' | 'posts' | 'all'] *)
Module SearchScope.
Inductive t : Type := users | posts | all_.
Definition tag (v : t) : string :=
  match v with
  | users => "users"
  | posts => "posts"
  | all_ => "all"
  end.
Definition all : list t := [users; posts; all_].
Definition parse (s : string) : option t :=
  find (fun v => String.eqb (tag v) s) all.
End SearchScope.

(** [SearchFilters.sortBy : 'recent' | 'popular' | 'relevance'] *)
Module SortOrder.
Inductive t : Type := recent | popular | relevance.
Definition tag (v : t) : string :=
  match v with
  | recent => "recent"
  | popular => "popular"
  | relevance => "relevance"
  end.
Definition all : list t := [recent; popular; relevance].
Definition parse (s : string) : option t :=
  find (fun v => String.eqb (tag v) s) all.
End SortOrder.

(** ** The interfaces of [src/types/index.ts] *)

Module User.
Record t : Type := mk {
  id : string;
  username : string;
  email : string;
  firstName : string;
  lastName : string;
  bio : option string;
  avatar : option string;
  coverImage : option string;
  followers : list string;
  following : list string;
  createdAt : Date;
  updatedAt : Date;
  isVerified : bool;
  location : option string;
  website : option string
}.
Definition decl : list FieldDecl :=
  [ req "id"; req "username"; req "email"; req "firstName"; req "lastName";
    opt "bio"; opt "avatar"; opt "coverImage";
    req "followers"; req "following"; req "createdAt"; req "updatedAt";
    req "isVerified"; opt "location"; opt "website" ].
Definition own_keys (u : t) : list string :=
  ["id"; "username"; "email"; "firstName"; "lastName"]
  ++ key_if_present "bio" (bio u)
  ++ key_if_present "avatar" (avatar u)
  ++ key_if_present "coverImage" (coverImage u)
  ++ ["followers"; "following"; "createdAt"; "updatedAt"; "isVerified"]
  ++ key_if_present "location" (location u)
  ++ key_if_present "website" (website u).
#[global] Instance interface : Interface t := {| fields := decl; keys := own_keys |}.
End User.

Module Comment.
Record t : Type := mk {
  id : string;
  postId : string;
  authorId : string;
  content : string;
  likes : list string;
  createdAt : Date;
  updatedAt : Date;
  parentId : option string
}.
Definition decl : list FieldDecl :=
  [ req "id"; req "postId"; req "authorId"; req "content"; req "likes";
    req "createdAt"; req "updatedAt"; opt "parentId" ].
Definition own_keys (c : t) : list string :=
  ["id"; "postId"; "authorId"; "content"; "likes"; "createdAt"; "updatedAt"]
  ++ key_if_present "parentId" (parentId c).
#[global] Instance interface : Interface t := {| fields := decl; keys := own_keys |}.
End Comment.

Module Post.
Record t : Type := mk {
  id : string;
  authorId : string;
  content : string;
  images : option (list string);
  likes : list string;
  comments : list Comment.t;
  shares : number;
  createdAt : Date;
  updatedAt : Date;
  isPublic : bool;
  tags : option (list string)
}.
Definition decl : list FieldDecl :=
  [ req "id"; req "authorId"; req "content"; opt "images"; req "likes";
    req "comments"; req "shares"; req "createdAt"; req "updatedAt";
    req "isPublic"; opt "tags" ].
Definition own_keys (p : t) : list string :=
  ["id"; "authorId"; "content"]
  ++ key_if_present "images" (images p)
  ++ ["likes"; "comments"; "shares"; "createdAt"; "updatedAt"; "isPublic"]
  ++ key_if_present "tags" (tags p).
#[global] Instance interface : Interface t := {| fields := decl; keys := own_keys |}.
End Post.

Module Message.
Record t : Type := mk {
  id : string;
  senderId : string;
  receiverId : string;
  content : string;
  type : MessageType.t;
  isRead : bool;
  createdAt : Date;
  attachments : option (list string)
}.
Definition decl : list FieldDecl :=
  [ req "id"; req "senderId"; req "receiverId"; req "content"; req "type";
    req "isRead"; req "createdAt"; opt "attachments" ].
Definition own_keys (m : t) : list string :=
  ["id"; "senderId"; "receiverId"; "content"; "type"; "isRead"; "createdAt"]
  ++ key_if_present "attachments" (attachments m).
#[global] Instance interface : Interface t := {| fields := decl; keys := own_keys |}.
End Message.

Module Conversation.
Record t : Type := mk {
  id : string;
  participants : list string;
  lastMessage : option Message.t;
  createdAt : Date;
  updatedAt : Date;
  isGroup : bool;
  groupName : option string;
  groupImage : option string
}.
Definition decl : list FieldDecl :=
  [ req "id"; req "participants"; opt "lastMessage"; req "createdAt";
    req "updatedAt"; req "isGroup"; opt "groupName"; opt "groupImage" ].
Definition own_keys (c : t) : list string :=
  ["id"; "participants"]
  ++ key_if_present "lastMessage" (lastMessage c)
  ++ ["createdAt"; "updatedAt"; "isGroup"]
  ++ key_if_present "groupName" (groupName c)
  ++ key_if_present "groupImage" (groupImage c).
#[global] Instance interface : Interface t := {| fields := decl; keys := own_keys |}.
End Conversation.

Module Notification.
Record t : Type := mk {
  id : string;
  userId : string;
  type : NotificationType.t;
  fromUserId : string;
  postId : option string;
  messageId : option string;
  isRead : bool;
  createdAt : Date
}.
Definition decl : list FieldDecl :=
  [ req "id"; req "userId"; req "type"; req "fromUserId"; opt "postId";
    opt "messageId"; req "isRead"; req "createdAt" ].
Definition own_keys (n : t) : list string :=
  ["id"; "userId"; "type"; "fromUserId"]
  ++ key_if_present "postId" (postId n)
  ++ key_if_present "messageId" (messageId n)
  ++ ["isRead"; "createdAt"].
#[global] Instance interface : Interface t := {| fields := decl; keys := own_keys |}.
End Notification.

Module ApiResponse.
Record t (T : Type) : Type := mk {
  success : bool;
  data : option T;
  error : option string;
  message : option string
}.
Arguments mk {T}.
Arguments success {T}.
Arguments data {T}.
Arguments error {T}.
Arguments message {T}.
Definition decl : list FieldDecl :=
  [ req "success"; opt "data"; opt "error"; opt "message" ].
Definition own_keys {T : Type} (r : t T) : list string :=
  ["success"]
  ++ key_if_present "data" (data r)
  ++ key_if_present "error" (error r)
  ++ key_if_present "message" (message r).
#[global] Instance interface (T : Type) : Interface (t T) :=
  {| fields := decl; keys := own_keys |}.
End ApiResponse.

(** The anonymous object type of [PaginatedResponse.pagination]. *)
Module Pagination.
Record t : Type := mk {
  page : number;
  limit : number;
  total : number;
  totalPages : number
}.
Definition decl : list FieldDecl :=
  [ req "page"; req "limit"; req "total"; req "totalPages" ].
Definition own_keys (p : t) : list string :=
  ["page"; "limit"; "total"; "totalPages"].
#[global] Instance interface : Interface t := {| fields := decl; keys := own_keys |}.
End Pagination.

Module PaginatedResponse.
Record t (T : Type) : Type := mk {
  data : list T;
  pagination : Pagination.t
}.
Arguments mk {T}.
Arguments data {T}.
Arguments pagination {T}.
Definition decl : list FieldDecl := [ req "data"; req "pagination" ].
Definition own_keys {T : Type} (r : t T) : list string := ["data"; "pagination"].
#[global] Instance interface (T : Type) : Interface (t T) :=
  {| fields := decl; keys := own_keys |}.
End PaginatedResponse.

Module LoginForm.
Record t : Type := mk {
  email : string;
  password : string
}.
Definition decl : list FieldDecl := [ req "email"; req "password" ].
Definition own_keys (f : t) : list string := ["email"; "password"].
#[global] Instance interface : Interface t := {| fields := decl; keys := own_keys |}.
End LoginForm.

Module RegisterForm.
Record t : Type := mk {
  username : string;
  email : string;
  password : string;
  confirmPassword : string;
  firstName : string;
  lastName : string
}.
Definition decl : list FieldDecl :=
  [ req "username"; req "email"; req "password"; req "confirmPassword";
    req "firstName"; req "lastName" ].
Definition own_keys (f : t) : list string :=
  ["username"; "email"; "password"; "confirmPassword"; "firstName"; "lastName"].
#[global] Instance interface : Interface t := {| fields := decl; keys := own_keys |}.
End RegisterForm.

(** [PostForm.images] holds DOM [File] objects; the form is generic in
    their type. *)
Module PostForm.
Record t (File : Type) : Type := mk {
  content : string;
  images : option (list File);
  isPublic : bool;
  tags : option (list string)
}.
Arguments mk {File}.
Arguments content {File}.
Arguments images {File}.
Arguments isPublic {File}.
Arguments tags {File}.
Definition decl : list FieldDecl :=
  [ req "content"; opt "images"; req "isPublic"; opt "tags" ].
Definition own_keys {File : Type} (f : t File) : list string :=
  ["content"]
  ++ key_if_present "images" (images f)
  ++ ["isPublic"]
  ++ key_if_present "tags" (tags f).
#[global] Instance interface (File : Type) : Interface (t File) :=
  {| fields := decl; keys := own_keys |}.
End PostForm.

Module SearchFilters.
Record t : Type := mk {
  query : string;
  type : SearchScope.t;
  sortBy : SortOrder.t
}.
Definition decl : list FieldDecl := [ req "query"; req "type"; req "sortBy" ].
Definition own_keys (f : t) : list string := ["query"; "type"; "sortBy"].
#[global] Instance interface : Interface t := {| fields := decl; keys := own_keys |}.
End SearchFilters.

(** [user: User | null] and [error: string | null] are required
    properties whose value may be [null]: the key is always there, the
    [option] is the [null]. *)
Module AppState.
Record t : Type := mk {
  user : option User.t;
  isAuthenticated : bool;
  isLoading : bool;
  error : option string
}.
Definition decl : list FieldDecl :=
  [ req "user"; req "isAuthenticated"; req "isLoading"; req "error" ].
Definition own_keys (s : t) : list string :=
  ["user"; "isAuthenticated"; "isLoading"; "error"].
#[global] Instance interface : Interface t := {| fields := decl; keys := own_keys |}.
End AppState.

(** [Partial<User>]: the properties of [User], every one of them optional. *)
Module PartialUser.
Record t : Type := mk {
  id : option string;
  username : option string;
  email : option string;
  firstName : option string;
  lastName : option string;
  bio : option string;
  avatar : option string;
  coverImage : option string;
  followers : option (list string);
  following : option (list string);
  createdAt : option Date;
  updatedAt : option Date;
  isVerified : option bool;
  location : option string;
  website : option string
}.
End PartialUser.

(** The operations of the authentication context return promises; the
    record is generic in the type constructor of promises. *)
Module AuthContextType.
Record t (Promise : Type -> Type) : Type := mk {
  user : option User.t;
  isAuthenticated : bool;
  login : string -> string -> Promise unit;
  register : RegisterForm.t -> Promise unit;
  logout : unit -> unit;
  updateProfile : PartialUser.t -> Promise unit
}.
Arguments mk {Promise}.
Arguments user {Promise}.
Arguments isAuthenticated {Promise}.
Arguments login {Promise}.
Arguments register {Promise}.
Arguments logout {Promise}.
Arguments updateProfile {Promise}.
Definition decl : list FieldDecl :=
  [ req "user"; req "isAuthenticated"; req "login"; req "register";
    req "logout"; req "updateProfile" ].
Definition own_keys {Promise : Type -> Type} (c : t Promise) : list string :=
  ["user"; "isAuthenticated"; "login"; "register"; "logout"; "updateProfile"].
#[global] Instance interface (Promise : Type -> Type) : Interface (t Promise) :=
  {| fields := decl; keys := own_keys |}.
End AuthContextType.

(** ** The conditions the specification states on the records

    The declarations carry no validation code.  The conditions below
    are the invariants of the specification's data model, written as
    predicates on the records so that they can be checked against the
    values the declarations admit. *)

(** [x <= y] on finite numbers. *)
Definition number_le (x y : number) : Prop :=
  match real_value x, real_value y with
  | Some a, Some b => (a <= b)%Q
  | _, _ => False
  end.

(** [totalPages = ceil(total / limit)], the quotient being exact. *)
Definition totalPages_is_ceiling (p : Pagination.t) : Prop :=
  match real_value (Pagination.total p), real_value (Pagination.limit p) with
  | Some t, Some l => has_value (Pagination.totalPages p) (inject_Z (Qceiling (t / l)))
  | _, _ => False
  end.

(** [totalPages = ceil(total / limit)] and [0 <= page <= totalPages]. *)
Definition pagination_invariant (p : Pagination.t) : Prop :=
  totalPages_is_ceiling p
  /\ number_le 0%float (Pagination.page p)
  /\ number_le (Pagination.page p) (Pagination.totalPages p).

Definition limit_positive (p : Pagination.t) : Prop :=
  (0 <? Pagination.limit p)%float = true.

(** Exactly two participants unless [isGroup], at least two when
    [isGroup]; and, with that, a non-empty participants list. *)
Definition conversation_counts (c : Conversation.t) : Prop :=
  (Conversation.isGroup c = false -> List.length (Conversation.participants c) = 2%nat)
  /\ (Conversation.isGroup c = true -> (2 <= List.length (Conversation.participants c))%nat).

Definition conversation_invariant (c : Conversation.t) : Prop :=
  Conversation.participants c <> [] /\ conversation_counts c.

(** Sender and receiver differ; recipient and triggering user differ. *)
Definition message_ids_differ (m : Message.t) : Prop :=
  Message.senderId m <> Message.receiverId m.

Definition notification_ids_differ (n : Notification.t) : Prop :=
  Notification.userId n <> Notification.fromUserId n.

(** [shares] is a non-negative integer and the likes are pairwise distinct. *)
Definition shares_is_count (p : Post.t) : Prop :=
  exists n : Z, 0 <= n /\ has_value (Post.shares p) (inject_Z n).

Definition post_invariant (p : Post.t) : Prop :=
  shares_is_count p /\ NoDup (Post.likes p).

(** Exactly one of [data] and [error] is meaningfully populated: a
    payload is populated when it is there, an error text when it is
    there and not empty. *)
Definition data_populated {T : Type} (r : ApiResponse.t T) : Prop :=
  ApiResponse.data r <> None.

Definition error_populated {T : Type} (r : ApiResponse.t T) : Prop :=
  exists text, ApiResponse.error r = Some text /\ text <> "".

Definition exactly_one_populated {T : Type} (r : ApiResponse.t T) : Prop :=
  (data_populated r /\ ~ error_populated r)
  \/ (~ data_populated r /\ error_populated r).

(** The docstring of [ApiResponse] says of [data?], [error?] and
    [message?] that "only one will be present": the number of those
    present in a value. *)
Definition present_count {T : Type} (r : ApiResponse.t T) : nat :=
  (List.length (key_if_present "data" (ApiResponse.data r))
   + List.length (key_if_present "error" (ApiResponse.error r))
   + List.length (key_if_present "message" (ApiResponse.message r)))%nat.

(** A user is in neither of its own lists. *)
Definition no_self_follow (u : User.t) : Prop :=
  ~ In (User.id u) (User.followers u) /\ ~ In (User.id u) (User.following u).

(** ** Reply chains

    [Comment.parentId] holds the id of the comment replied to, and
    [Post.comments] the comments of the post.  The repository has no
    code that follows these links; the walk the specification speaks of
    looks the id up among the comments of the post and takes the first
    comment that carries it. *)

Definition find_comment (comments : list Comment.t) (cid : string) : option Comment.t :=
  find (fun c => String.eqb (Comment.id c) cid) comments.

Definition parent (comments : list Comment.t) (c : Comment.t) : option Comment.t :=
  match Comment.parentId c with
  | Some pid => find_comment comments pid
  | None => None
  end.

(** [ancestor comments a c]: [a] is reached from [c] by one or more
    parent links. *)
Inductive ancestor (comments : list Comment.t) : Comment.t -> Comment.t -> Prop :=
| ancestor_parent : forall c p,
    parent comments c = Some p -> ancestor comments p c
| ancestor_further : forall c p a,
    parent comments c = Some p -> ancestor comments a p -> ancestor comments a c.

Definition acyclic (comments : list Comment.t) : Prop :=
  forall c, In c comments -> ~ ancestor comments c c.

(** The comments visited from [c] upwards, [c] first.  [fuel] bounds the
    number of comments visited: [None] means the walk was still going
    after [fuel] comments. *)
Fixpoint reply_chain (fuel : nat) (comments : list Comment.t) (c : Comment.t)
  : option (list Comment.t) :=
  match fuel with
  | O => None
  | S fuel' =>
      match parent comments c with
      | None => Some [c]
      | Some p => option_map (cons c) (reply_chain fuel' comments p)
      end
  end.

(** ** The [App] component

    [const [count, setCount] = useState(0)]: the state is one [number],
    initially [0].  The button's handler is
    [() => setCount((count) => count + 1)]: the next state is the updater
    applied to the current one.  The button shows [count is {count}]. *)

Module App.
Definition initialCount : number := 0%float.
Definition updater (count : number) : number := (count + 1)%float.
Definition setCount (f : number -> number) (count : number) : number := f count.
Definition onClick (count : number) : number := setCount updater count.

Record View : Type := mkView { buttonCount : number }.
Definition render (count : number) : View := mkView count.

(** The state after [k] clicks on the button. *)
Fixpoint clicks (k : nat) : number :=
  match k with
  | O => initialCount
  | S k' => onClick (clicks k')
  end.
End App.

(** ** Auxiliary definitions for binary64 integers *)

(** Number of binary digits of a mantissa. *)
Definition digits (p : positive) : Z := Zpos (digits2_pos p).

(** [p * 2 ^ k] for [0 <= k]. *)
Definition lsl (p : positive) (k : Z) : positive :=
  match k with
  | Zpos j => Pos.iter xO p j
  | _ => p
  end.

(** [p], below [2 ^ 53], shifted to a mantissa of exactly 53 digits. *)
Definition normal53 (p : positive) : positive := lsl p (53 - digits p).

(** The binary64 representation of an integer of magnitude below [2 ^ 53]. *)
Definition SFint (n : Z) : spec_float :=
  match n with
  | Z0 => S754_zero false
  | Zpos p => S754_finite false (normal53 p) (digits p - 53)
  | Zneg p => S754_finite true (normal53 p) (digits p - 53)
  end.

Definition exact_record (m : positive) : shr_record :=
  Build_shr_record (Zpos m) false false.

(** ** Sample values *)

Definition epoch : Date := mkDate 0%float.

Definition sample_pagination (page totalPages : number) : Pagination.t :=
  Pagination.mk page 20%float 95%float totalPages.

Definition sample_comment (id : string) (parentId : option string) : Comment.t :=
  Comment.mk id "p1" "u1" "" [] epoch epoch parentId.

Definition sample_post (likes : list string) (comments : list Comment.t)
  (shares : number) : Post.t :=
  Post.mk "p1" "u1" "" None likes comments shares epoch epoch true None.

Definition sample_message (senderId receiverId : string) : Message.t :=
  Message.mk "m1" senderId receiverId "" MessageType.text false epoch None.

Definition sample_notification (userId fromUserId : string) : Notification.t :=
  Notification.mk "n1" userId NotificationType.like fromUserId None None false epoch.

Definition sample_conversation (participants : list string) (isGroup : bool)
  : Conversation.t :=
  Conversation.mk "c1" participants None epoch epoch isGroup None None.

Definition sample_user (id : string) (bio : option string)
  (followers following : list string) : User.t :=
  User.mk id "name" "mail" "first" "last" bio None None followers following
    epoch epoch false None None.

(** ** What a closed tag set and a field partition are *)

(** [literals] are exactly the values of a string literal union whose
    members are the [tag]s of [A]: every member is listed, every listed
    literal is a member, distinct members have distinct literals, and
    [parse] accepts a string exactly when it is the literal of a member. *)
Definition closed_tag_set {A : Type} (tag : A -> string)
  (parse : string -> option A) (literals : list string) : Prop :=
  (forall v, In (tag v) literals)
  /\ (forall s, In s literals -> exists v, tag v = s)
  /\ (forall v w, tag v = tag w -> v = w)
  /\ (forall s v, parse s = Some v <-> tag v = s)
  /\ (forall s, ~ In s literals -> parse s = None /\ forall v, tag v <> s).

(** The declared properties of an interface split into the required
    ones, carried by every value, and the optional ones, which some
    value lacks and some value carries; a value carries no other key. *)
Definition partitions_fields (T : Type) `{Interface T} : Prop :=
  NoDup (map name fields)
  /\ (forall k, In k (map name fields) ->
        (In k (required_names fields) <-> ~ In k (optional_names fields)))
  /\ (forall (x : T) k, In k (keys x) -> In k (map name fields))
  /\ (forall k, In k (required_names fields) -> forall x : T, In k (keys x))
  /\ (forall k, In k (optional_names fields) ->
        (exists x : T, ~ In k (keys x)) /\ (exists x : T, In k (keys x))).

(** For every interface with optional properties: a value with all of
    them absent and a value with all of them present and empty. *)
Definition bare_user : User.t := sample_user "u1" None [] [].
Definition full_user : User.t :=
  User.mk "u1" "name" "mail" "first" "last" (Some "") (Some "") (Some "") [] []
    epoch epoch false (Some "") (Some "").

Definition bare_comment : Comment.t := sample_comment "c1" None.
Definition full_comment : Comment.t := sample_comment "c1" (Some "").

Definition bare_post : Post.t := sample_post [] [] 0%float.
Definition full_post : Post.t :=
  Post.mk "p1" "u1" "" (Some []) [] [] 0%float epoch epoch true (Some []).

Definition bare_message : Message.t := sample_message "u1" "u2".
Definition full_message : Message.t :=
  Message.mk "m1" "u1" "u2" "" MessageType.text false epoch (Some []).

Definition bare_conversation : Conversation.t := sample_conversation ["u1"; "u2"] false.
Definition full_conversation : Conversation.t :=
  Conversation.mk "c1" ["u1"; "u2"] (Some bare_message) epoch epoch false
    (Some "") (Some "").

Definition bare_notification : Notification.t := sample_notification "u1" "u2".
Definition full_notification : Notification.t :=
  Notification.mk "n1" "u1" NotificationType.like "u2" (Some "") (Some "") false epoch.

Definition bare_response {T : Type} : ApiResponse.t T :=
  ApiResponse.mk true None None None.
Definition full_response {T : Type} (payload : T) : ApiResponse.t T :=
  ApiResponse.mk true (Some payload) (Some "") (Some "").

Definition conflicting_response : ApiResponse.t nat :=
  ApiResponse.mk true (Some 1%nat) (Some "failed") None.

Definition bare_post_form {File : Type} : PostForm.t File :=
  PostForm.mk "" None true None.
Definition full_post_form {File : Type} : PostForm.t File :=
  PostForm.mk "" (Some []) true (Some []).

(** The key [k] is carried exactly by the values whose optional
    property [get] is there, whatever it holds: an empty string or an
    empty array is a present property, not an absent one. *)
Definition tracks {T A : Type} `{Interface T} (k : string) (get : T -> option A)
  : Prop :=
  forall x : T, In k (keys x) <-> get x <> None.

(** Membership in a list of strings and absence of repetitions, decided
    by computation. *)
Definition mem (k : string) (l : list string) : bool := existsb (String.eqb k) l.

Fixpoint distinct (l : list string) : bool :=
  match l with
  | [] => true
  | k :: r => negb (mem k r) && distinct r
  end.

(** ** The element tree [App] returns and the clicks on it

    The JSX of [App] is a tree of elements.  A child is a text, a number
    (the [{count}] of the button) or an element with its tag, its
    string-valued props, its [onClick] handler if it has one, and its
    children; the root is a fragment.  [H] is the type of handlers. *)

Module Jsx.
#[warnings="-register-all"] Inductive node (H : Type) : Type :=
| Text (s : string)
| Value (n : number)
| Element (tag : string) (props : list (string * string))
    (onClick : option H) (children : list (node H))
| Fragment (children : list (node H)).
Arguments Text {H}.
Arguments Value {H}.
Arguments Element {H}.
Arguments Fragment {H}.

Definition children {H : Type} (t : node H) : list (node H) :=
  match t with
  | Element _ _ _ cs | Fragment cs => cs
  | Text _ | Value _ => []
  end.

Definition handler {H : Type} (t : node H) : list H :=
  match t with
  | Element _ _ (Some h) _ => [h]
  | _ => []
  end.

Definition tag_of {H : Type} (t : node H) : list string :=
  match t with
  | Element tag _ _ _ => [tag]
  | _ => []
  end.

(** A click lands on the node that [path] leads to (child indices from
    the root) and bubbles up: the handlers met from the target to the
    root, in that order.  [None] when [path] leads to no node. *)
Fixpoint bubble {H : Type} (t : node H) (path : list nat) : option (list H) :=
  match path with
  | [] => Some (handler t)
  | i :: rest =>
      match nth_error (children t) i with
      | Some c => option_map (fun hs => (hs ++ handler t)%list) (bubble c rest)
      | None => None
      end
  end.

(** The tags of the elements from the target of [path] up to the root. *)
Fixpoint trail {H : Type} (t : node H) (path : list nat) : option (list string) :=
  match path with
  | [] => Some (tag_of t)
  | i :: rest =>
      match nth_error (children t) i with
      | Some c => option_map (fun ts => (ts ++ tag_of t)%list) (trail c rest)
      | None => None
      end
  end.

(** [path] leads to an element with tag [tag] or to a node inside one. *)
Definition inside {H : Type} (tag : string) (t : node H) (path : list nat) : bool :=
  match trail t path with
  | Some tags => existsb (String.eqb tag) tags
  | None => false
  end.

(** The state after a click at [path], handlers being state transformers. *)
Definition dispatch {S : Type} (t : node (S -> S)) (path : list nat) (s : S) : S :=
  match bubble t path with
  | Some hs => fold_left (fun s h => h s) hs s
  | None => s
  end.
End Jsx.

(** The tree of [App]: [viteLogo] and [reactLogo] are the imported asset
    URLs, [onClick] the handler of the button, [count] the state. *)
Module AppTree.
Definition view {H : Type} (viteLogo reactLogo : string) (onClick : H)
  (count : number) : Jsx.node H :=
  Jsx.Fragment
    [ Jsx.Element "div" [] None
        [ Jsx.Element "a" [("href", "https://vite.dev"); ("target", "_blank")] None
            [ Jsx.Element "img"
                [("src", viteLogo); ("className", "logo"); ("alt", "Vite logo")]
                None [] ];
          Jsx.Element "a" [("href", "https://react.dev"); ("target", "_blank")] None
            [ Jsx.Element "img"
                [("src", reactLogo); ("className", "logo react"); ("alt", "React logo")]
                None [] ] ];
      Jsx.Element "h1" [] None [ Jsx.Text "Vite + React" ];
      Jsx.Element "div" [("className", "card")] None
        [ Jsx.Element "button" [] (Some onClick)
            [ Jsx.Text "count is "; Jsx.Value count ];
          Jsx.Element "p" [] None
            [ Jsx.Text "Edit ";
              Jsx.Element "code" [] None [ Jsx.Text "src/App.tsx" ];
              Jsx.Text " and save to test HMR" ] ];
      Jsx.Element "p" [("className", "read-the-docs")] None
        [ Jsx.Text "Click on the Vite and React logos to learn more" ] ].
End AppTree.

(** ** The state hook with batched updates

    [setCount] called with an updater does not change the state at
    once: the updater is queued, and the next render of the component
    applies the queued updaters in order to the state.  The button's
    handler is [() => setCount((count) => count + 1)]. *)

Module Runtime.
Record Instance : Type := mkInstance {
  state : number;
  pending : list (number -> number)
}.

Definition mount : Instance := mkInstance App.initialCount [].

Definition setCount (f : number -> number) (i : Instance) : Instance :=
  mkInstance (state i) (pending i ++ [f])%list.

Definition onClick (i : Instance) : Instance := setCount App.updater i.

Definition rerender (i : Instance) : Instance :=
  mkInstance (fold_left (fun s f => f s) (pending i) (state i)) [].

(** The tree on screen: the one of the last render. *)
Definition tree (viteLogo reactLogo : string) (i : Instance)
  : Jsx.node (Instance -> Instance) :=
  AppTree.view viteLogo reactLogo onClick (state i).

Inductive action : Type :=
| Click (path : list nat)
| Rerender.

Definition step (viteLogo reactLogo : string) (a : action) (i : Instance)
  : Instance :=
  match a with
  | Click path => Jsx.dispatch (tree viteLogo reactLogo i) path i
  | Rerender => rerender i
  end.

Definition run (viteLogo reactLogo : string) (actions : list action)
  (i : Instance) : Instance :=
  fold_left (fun i a => step viteLogo reactLogo a i) actions i.

(** The clicks of [actions] that land on the button or inside it, in the
    tree on screen at the time of the click. *)
Fixpoint button_clicks (viteLogo reactLogo : string) (actions : list action)
  (i : Instance) : nat :=
  match actions with
  | [] => 0
  | a :: rest =>
      (match a with
       | Click path =>
           if Jsx.inside "button" (tree viteLogo reactLogo i) path then 1 else 0
       | Rerender => 0
       end
       + button_clicks viteLogo reactLogo rest (step viteLogo reactLogo a i))%nat
  end.

(** The actions up to and including the last render, and the actions
    since: [actions] read from the left, a render closing what came
    before it. *)
Definition split_at_last_render (actions : list action)
  : list action * list action :=
  fold_left
    (fun parts a =>
       match a with
       | Rerender => ((fst parts ++ snd parts ++ [Rerender])%list, [])
       | Click _ => (fst parts, (snd parts ++ [a])%list)
       end)
    actions ([], []).

Definition rendered (actions : list action) : list action :=
  fst (split_at_last_render actions).

Definition waiting (actions : list action) : list action :=
  snd (split_at_last_render actions).

Definition is_click (a : action) : bool :=
  match a with
  | Click _ => true
  | Rerender => false
  end.
End Runtime.

(** * Binary64 arithmetic on integers

    [count + 1] is exact as long as both [count] and [count + 1] are
    integers of magnitude at most [2 ^ 53]; the lemmas below establish
    it from the specification of binary64 addition. *)

Section Binary64Integers.

Lemma digits_pos p : 1 <= digits p.
Proof. unfold digits. lia. Qed.

Lemma digits_log2 p : digits p = Z.succ (Z.log2 (Zpos p)).
Proof.
  unfold digits.
  assert (H : forall q, digits2_pos q = Pos.size q).
  { induction q; simpl; congruence. }
  destruct p; simpl; rewrite ?H; lia.
Qed.

Lemma digits_bounds p : 2 ^ (digits p - 1) <= Zpos p < 2 ^ digits p.
Proof.
  rewrite digits_log2.
  replace (Z.succ (Z.log2 (Z.pos p)) - 1) with (Z.log2 (Z.pos p)) by lia.
  apply Z.log2_spec. lia.
Qed.

Lemma digits_unique p d : 2 ^ (d - 1) <= Zpos p < 2 ^ d -> digits p = d.
Proof.
  intros H. rewrite digits_log2.
  assert (0 <= d - 1).
  { destruct (Z_lt_le_dec (d - 1) 0) as [Hn|]; [|lia].
    assert (2 ^ d <= 2 ^ 0) by (apply Z.pow_le_mono_r; lia).
    simpl in *. lia. }
  assert (Z.log2 (Zpos p) = d - 1); [|lia].
  apply Z.log2_unique; [lia|].
  replace (Z.succ (d - 1)) with d by lia. exact H.
Qed.

Lemma digits_mono p q : (p <= q)%positive -> digits p <= digits q.
Proof.
  intros H. rewrite !digits_log2.
  assert (Z.log2 (Zpos p) <= Z.log2 (Zpos q)) by (apply Z.log2_le_mono; lia).
  lia.
Qed.

Lemma digits_le_53 p : Zpos p < 2 ^ 53 -> digits p <= 53.
Proof.
  intros H. pose proof (digits_bounds p) as [Hlo _]. pose proof (digits_pos p).
  assert (L : 2 ^ (digits p - 1) < 2 ^ 53) by lia.
  apply Z.pow_lt_mono_r_iff in L; lia.
Qed.

Lemma Zpos_lsl p k : 0 <= k -> Zpos (lsl p k) = Zpos p * 2 ^ k.
Proof.
  destruct k as [|j|j]; intros Hk; unfold lsl; [lia| |lia].
  induction j using Pos.peano_ind.
  - cbn. lia.
  - rewrite Pos.iter_succ, Pos2Z.inj_xO, IHj by lia.
    rewrite Pos2Z.inj_succ, Z.pow_succ_r by lia. lia.
Qed.

Lemma lsl_lsl p a b : 0 <= a -> 0 <= b -> lsl (lsl p a) b = lsl p (a + b).
Proof.
  intros Ha Hb. apply Pos2Z.inj.
  rewrite !Zpos_lsl, Z.pow_add_r by lia. lia.
Qed.

Lemma digits_lsl p k : 0 <= k -> digits (lsl p k) = digits p + k.
Proof.
  intros Hk. apply digits_unique. rewrite Zpos_lsl by lia.
  pose proof (digits_bounds p) as [Hlo Hhi]. pose proof (digits_pos p).
  replace (digits p + k - 1) with ((digits p - 1) + k) by lia.
  rewrite !Z.pow_add_r by lia.
  assert (0 < 2 ^ k) by (apply Z.pow_pos_nonneg; lia).
  split; nia.
Qed.

Lemma digits_normal53 p : digits p <= 53 -> digits (normal53 p) = 53.
Proof. intros H. unfold normal53. rewrite digits_lsl; lia. Qed.

(** The shift loop of the rounding function, as an iteration over [nat]. *)
Lemma iter_pos_nat {A} (f : A -> A) p :
  forall x, SpecFloat.iter_pos f p x = Nat.iter (Pos.to_nat p) f x.
Proof.
  induction p; intros x; cbn [SpecFloat.iter_pos].
  - rewrite !IHp, Pos2Nat.inj_xI, <- Nat.iter_succ_r, <- Nat.iter_add.
    f_equal. lia.
  - rewrite !IHp, Pos2Nat.inj_xO, <- Nat.iter_add. f_equal. lia.
  - reflexivity.
Qed.

Lemma iter_shr_1 n m :
  Nat.iter n shr_1 (exact_record (Nat.iter n xO m)) = exact_record m.
Proof.
  induction n; [reflexivity|].
  rewrite Nat.iter_succ_r. simpl. exact IHn.
Qed.

(** Shifting right the zeros that a left shift appended loses nothing. *)
Lemma shr_lsl p e k :
  0 <= k -> shr (exact_record (lsl p k)) e k = (exact_record p, e + k).
Proof.
  destruct k as [|j|j]; intros Hk; simpl; [f_equal; lia| |lia].
  rewrite iter_pos_nat, Pos2Nat.inj_iter.
  change (nat_rect (fun _ => positive) p (fun _ => xO) (Pos.to_nat j))
    with (Nat.iter (Pos.to_nat j) xO p).
  now rewrite iter_shr_1.
Qed.

Lemma fexp_normal d : -1021 <= d -> fexp prec emax d = d - 53.
Proof. unfold fexp, SpecFloat.emin, prec, emax. lia. Qed.

Lemma leb_emax e : e <= 971 -> (e <=? emax - prec) = true.
Proof. intros H. apply Z.leb_le. unfold emax, prec. lia. Qed.

Lemma shr_fexp_canonical m e :
  digits m = 53 -> -1074 <= e ->
  shr_fexp prec emax (Zpos m) e loc_Exact = (exact_record m, e).
Proof.
  intros Hd He. unfold shr_fexp. cbn [Zdigits2]. fold (digits m).
  rewrite Hd, fexp_normal by lia.
  replace (53 + e - 53 - e) with 0 by lia. reflexivity.
Qed.

(** A 53-digit mantissa with an exponent in range is left as it is. *)
Lemma binary_round_aux_canonical s m e :
  digits m = 53 -> -1074 <= e <= 971 ->
  binary_round_aux prec emax s (Zpos m) e loc_Exact = S754_finite s m e.
Proof.
  intros Hd He. unfold binary_round_aux.
  rewrite shr_fexp_canonical by (assumption || lia).
  cbn [exact_record shr_m loc_of_shr_record round_nearest_even].
  rewrite shr_fexp_canonical by (assumption || lia).
  cbn [exact_record shr_m]. now rewrite leb_emax by lia.
Qed.

Lemma shl_align_up p e e' :
  e' <= e -> shl_align p e e' = (lsl p (e - e'), Z.min e e').
Proof.
  intros H. unfold shl_align, lsl.
  destruct (e' - e) as [|j|j] eqn:E.
  - replace (e - e') with 0 by lia. f_equal. lia.
  - lia.
  - replace (e - e') with (Zpos j) by lia. f_equal. lia.
Qed.

Lemma shl_align_down p e e' : e <= e' -> shl_align p e e' = (p, e).
Proof.
  intros H. unfold shl_align.
  destruct (e' - e) as [|j|j] eqn:E; [reflexivity..|lia].
Qed.

(** The double nearest to a positive integer below [2 ^ 53] is the
    integer itself, written with a 53-digit mantissa. *)
Lemma binary_round_int s p :
  digits p <= 53 ->
  binary_round prec emax s p 0 = S754_finite s (normal53 p) (digits p - 53).
Proof.
  intros Hd. pose proof (digits_pos p). unfold binary_round.
  fold (digits p). rewrite Z.add_0_r, fexp_normal by lia.
  rewrite shl_align_up by lia.
  replace (0 - (digits p - 53)) with (53 - digits p) by lia.
  replace (Z.min 0 (digits p - 53)) with (digits p - 53) by lia.
  apply binary_round_aux_canonical; [now apply digits_normal53|lia].
Qed.

(** The same integer given as [q * 2 ^ 52] with exponent [-52], the form
    in which a sum with [1] reaches the rounding function. *)
Lemma binary_round_scaled s q :
  digits q <= 53 ->
  binary_round prec emax s (lsl q 52) (-52)
  = S754_finite s (normal53 q) (digits q - 53).
Proof.
  intros Hd. pose proof (digits_pos q). unfold binary_round.
  fold (digits (lsl q 52)). rewrite digits_lsl by lia.
  replace (digits q + 52 + -52) with (digits q) by lia.
  rewrite fexp_normal by lia. rewrite shl_align_down by lia.
  unfold binary_round_aux at 1. unfold shr_fexp at 1.
  cbn [Zdigits2]. fold (digits (lsl q 52)). rewrite digits_lsl by lia.
  replace (digits q + 52 + -52) with (digits q) by lia.
  rewrite fexp_normal by lia.
  replace (lsl q 52) with (lsl (normal53 q) (digits q - 53 - -52)).
  2:{ unfold normal53. rewrite lsl_lsl by lia. f_equal. lia. }
  cbn [shr_record_of_loc].
  fold (exact_record (lsl (normal53 q) (digits q - 53 - -52))).
  rewrite shr_lsl by lia.
  cbn [exact_record shr_m loc_of_shr_record round_nearest_even].
  replace (-52 + (digits q - 53 - -52)) with (digits q - 53) by lia.
  rewrite shr_fexp_canonical by (try apply digits_normal53; lia).
  cbn [exact_record shr_m]. now rewrite leb_emax by lia.
Qed.

Lemma Z2SF_small n : Z.abs n < 2 ^ 53 -> Z2SF n = SFint n.
Proof.
  destruct n as [|p|p]; intros H; unfold Z2SF, binary_normalize, SFint;
    [reflexivity| |]; apply binary_round_int, digits_le_53; lia.
Qed.

Lemma normalize_scaled z :
  Z.abs z < 2 ^ 53 ->
  binary_normalize prec emax (z * 2 ^ 52) (-52) false = SFint z.
Proof.
  destruct z as [|q|q]; intros H; [reflexivity| |].
  - replace (Zpos q * 2 ^ 52) with (Zpos (lsl q 52)) by (rewrite Zpos_lsl; lia).
    apply binary_round_scaled, digits_le_53. lia.
  - replace (Zneg q * 2 ^ 52) with (Zneg (lsl q 52)).
    2:{ rewrite <- !Pos2Z.opp_pos, Zpos_lsl by lia. lia. }
    apply binary_round_scaled, digits_le_53. lia.
Qed.

Lemma valid_SFint n : Z.abs n < 2 ^ 53 -> valid_binary (SFint n) = true.
Proof.
  destruct n as [|p|p]; intros H; [reflexivity| |];
    (assert (Hd : digits p <= 53) by (apply digits_le_53; lia);
     pose proof (digits_pos p);
     cbn [SFint SpecFloat.valid_binary]; unfold bounded, canonical_mantissa;
     fold (digits (normal53 p)); rewrite digits_normal53 by assumption;
     rewrite fexp_normal by lia; rewrite leb_emax by lia;
     rewrite andb_true_r; apply Z.eqb_eq; lia).
Qed.

(** Aligning a small integer on the exponent of [1] multiplies its
    mantissa by a power of two that makes it the integer times [2 ^ 52]. *)
Lemma SFint_align s m e n :
  Z.abs n < 2 ^ 53 -> SFint n = S754_finite s m e ->
  Z.min e (-52) = -52
  /\ cond_Zopp s (Zpos (fst (shl_align m e (-52)))) = n * 2 ^ 52.
Proof.
  intros Hn E.
  assert (exists p, Z.abs n = Zpos p /\ s = (n <? 0)
                    /\ m = normal53 p /\ e = digits p - 53)
    as (p & Hp & -> & -> & ->).
  { destruct n as [|p|p]; cbn [SFint] in E; [discriminate| |];
      exists p; change (Z.pos p <? 0) with false;
      change (Z.neg p <? 0) with true;
      cbn [Z.abs]; repeat split; congruence. }
  clear E. rewrite Hp in Hn.
  assert (Hd : digits p <= 53) by now apply digits_le_53.
  pose proof (digits_pos p). split; [lia|].
  rewrite shl_align_up by lia. cbn [fst].
  unfold normal53. rewrite lsl_lsl by lia.
  replace (53 - digits p + (digits p - 53 - -52)) with 52 by lia.
  rewrite Zpos_lsl, <- Hp by lia.
  destruct (Z.ltb_spec n 0); cbn [cond_Zopp]; lia.
Qed.

Lemma SFint_1 : SFint 1 = S754_finite false 4503599627370496 (-52).
Proof. reflexivity. Qed.

Lemma SFadd_int_one n :
  Z.abs n < 2 ^ 53 -> Z.abs (n + 1) < 2 ^ 53 ->
  SF64add (SFint n) (SFint 1) = SFint (n + 1).
Proof.
  intros Hn Hn1. destruct (SFint n) as [s| | |s m e] eqn:E.
  - destruct n; try discriminate E. reflexivity.
  - destruct n; discriminate E.
  - destruct n; discriminate E.
  - apply SFint_align in E as [Hmin Hal]; [|assumption].
    rewrite SFint_1. unfold SF64add, SFadd. rewrite Hmin, Hal.
    replace (cond_Zopp false (Zpos (fst (shl_align 4503599627370496 (-52) (-52)))))
      with (2 ^ 52) by reflexivity.
    replace (n * 2 ^ 52 + 2 ^ 52) with ((n + 1) * 2 ^ 52) by lia.
    now apply normalize_scaled.
Qed.

Lemma SFleb_int a b :
  0 <= a <= b -> b < 2 ^ 53 -> SFleb (SFint a) (SFint b) = true.
Proof.
  intros [Ha Hab] Hb. unfold SFleb.
  destruct a as [|p|p]; [|clear Ha|lia].
  - destruct b as [|q|q]; [reflexivity..|lia].
  - destruct b as [|q|q]; [lia| |lia]. cbn [SFint SFcompare].
    assert (Hpq : (p <= q)%positive) by lia.
    pose proof (digits_mono p q Hpq) as Hd.
    destruct (Z.compare_spec (digits p - 53) (digits q - 53)) as [E|L|G];
      [|reflexivity|lia].
    change (Pos.compare_cont Eq ?x ?y) with (Pos.compare x y).
    assert (Hk : 0 <= 53 - digits q) by (pose proof (digits_le_53 q); lia).
    assert (Hm : (normal53 p <= normal53 q)%positive).
    { unfold normal53. replace (digits p) with (digits q) by lia.
      change (Zpos (lsl p (53 - digits q)) <= Zpos (lsl q (53 - digits q))).
      rewrite !Zpos_lsl by assumption.
      apply Z.mul_le_mono_nonneg_r; [apply Z.pow_nonneg|]; lia. }
    destruct (Pos.compare_spec (normal53 p) (normal53 q)); [reflexivity..|lia].
Qed.

(** From the specification to the primitive type. *)
Lemma Prim2SF_number_of_Z n :
  Z.abs n < 2 ^ 53 -> Prim2SF (number_of_Z n) = SFint n.
Proof.
  intros H. unfold number_of_Z. rewrite Z2SF_small by assumption.
  apply Prim2SF_SF2Prim, valid_SFint, H.
Qed.

Lemma number_of_Z_leb a b :
  0 <= a <= b -> b < 2 ^ 53 -> (number_of_Z a <=? number_of_Z b)%float = true.
Proof.
  intros Hab Hb. rewrite leb_spec, !Prim2SF_number_of_Z by lia.
  now apply SFleb_int.
Qed.

End Binary64Integers.

(** * The counter of the App component *)

Section Counter.

Lemma scaled_value a k :
  0 <= k -> (inject_Z (a * 2 ^ k) * 2 ^ (- k) == inject_Z a)%Q.
Proof.
  intros Hk.
  rewrite inject_Z_mult, Zpower_Qpower, Qpower_opp by assumption.
  rewrite <- Qmult_assoc, Qmult_inv_r, Qmult_1_r; [reflexivity|].
  apply Qpower_not_0. discriminate.
Qed.

(** Integers up to [2 ^ 53] in magnitude are numbers: the literal
    denotes exactly the integer. *)
Lemma has_value_number_of_Z n :
  Z.abs n <= 2 ^ 53 -> has_value (number_of_Z n) (inject_Z n).
Proof.
  intros H.
  destruct (Z.eq_dec n (2 ^ 53)) as [->|Hhi]; [vm_compute; reflexivity|].
  destruct (Z.eq_dec n (- 2 ^ 53)) as [->|Hlo]; [vm_compute; reflexivity|].
  assert (Hn : Z.abs n < 2 ^ 53) by lia.
  unfold has_value, real_value. rewrite Prim2SF_number_of_Z by assumption.
  destruct n as [|p|p]; cbn [SFint cond_Zopp]; [reflexivity| |].
  - assert (Hd : digits p <= 53) by (apply digits_le_53; lia).
    unfold normal53. rewrite Zpos_lsl by lia.
    replace (digits p - 53) with (- (53 - digits p)) by lia.
    apply scaled_value. lia.
  - assert (Hd : digits p <= 53) by (apply digits_le_53; lia).
    unfold normal53.
    replace (- Z.pos (lsl p (53 - digits p)))
      with (Z.neg p * 2 ^ (53 - digits p))
      by (rewrite Zpos_lsl by lia; lia).
    replace (digits p - 53) with (- (53 - digits p)) by lia.
    apply scaled_value. lia.
Qed.

(** The value of a finite number equated to an integer, read in [Z]. *)
Lemma value_as_integer s m e n :
  (inject_Z (cond_Zopp s (Zpos m)) * 2 ^ e == inject_Z n)%Q ->
  (0 <= e -> cond_Zopp s (Zpos m) * 2 ^ e = n)
  /\ (e <= 0 -> cond_Zopp s (Zpos m) = n * 2 ^ (- e)).
Proof.
  intros H. split; intros He.
  - apply inject_Z_injective.
    now rewrite inject_Z_mult, Zpower_Qpower by assumption.
  - apply inject_Z_injective.
    rewrite inject_Z_mult, Zpower_Qpower by lia.
    assert (N : ~ (2 ^ (- e) == 0)%Q) by (apply Qpower_not_0; discriminate).
    rewrite <- H.
    replace e with (- - e) at 1 by lia. rewrite Qpower_opp.
    rewrite <- Qmult_assoc, (Qmult_comm (/ _)), Qmult_inv_r by assumption.
    now rewrite Qmult_1_r.
Qed.

(** A valid representation whose value is an integer of magnitude at
    most [2 ^ 53] is the one rounding computes for that integer. *)
Lemma finite_integer_unique s m e n :
  valid_binary (S754_finite s m e) = true ->
  (inject_Z (cond_Zopp s (Zpos m)) * 2 ^ e == inject_Z n)%Q ->
  Z.abs n <= 2 ^ 53 ->
  S754_finite s m e = Z2SF n.
Proof.
  intros Hvalid Hvalue Hn.
  apply value_as_integer in Hvalue as [Hup Hdown].
  cbn [SpecFloat.valid_binary] in Hvalid. unfold bounded in Hvalid.
  apply andb_prop in Hvalid as [Hcanon _].
  unfold canonical_mantissa in Hcanon. apply Z.eqb_eq in Hcanon.
  fold (digits m) in Hcanon.
  assert (Hfexp : forall d, fexp prec emax d = Z.max (d - 53) (-1074)) by reflexivity.
  rewrite Hfexp in Hcanon.
  (* the magnitude of [n], a positive [p] with the sign of [n] in [s] *)
  assert (exists p, n = cond_Zopp s (Zpos p)
                    /\ (0 <= e -> Zpos m * 2 ^ e = Zpos p)
                    /\ (e <= 0 -> Zpos m = Zpos p * 2 ^ (- e)))
    as (p & -> & Hup' & Hdown').
  { assert (0 < 2 ^ e \/ e < 0) as Hpow
      by (destruct (Z_lt_le_dec e 0); [now right|left; apply Z.pow_pos_nonneg; lia]).
    assert (0 < 2 ^ (- e) \/ 0 < e) as Hpow'
      by (destruct (Z_lt_le_dec 0 e); [now right|left; apply Z.pow_pos_nonneg; lia]).
    destruct n as [|p|p].
    - exfalso. destruct (Z_lt_le_dec e 0).
      + specialize (Hdown ltac:(lia)). destruct s; cbn in Hdown; lia.
      + specialize (Hup ltac:(lia)). destruct Hpow; [|lia].
        destruct s; cbn [cond_Zopp] in Hup; nia.
    - exists p. destruct s.
      + exfalso. destruct (Z_lt_le_dec e 0).
        * specialize (Hdown ltac:(lia)). destruct Hpow'; [|lia].
          cbn [cond_Zopp] in Hdown. nia.
        * specialize (Hup ltac:(lia)). destruct Hpow; [|lia].
          cbn [cond_Zopp] in Hup. nia.
      + cbn [cond_Zopp] in *. repeat split; assumption.
    - exists p. destruct s.
      + cbn [cond_Zopp] in *. repeat split; intros He.
        * specialize (Hup He). lia.
        * specialize (Hdown He). lia.
      + exfalso. destruct (Z_lt_le_dec e 0).
        * specialize (Hdown ltac:(lia)). destruct Hpow'; [|lia].
          cbn [cond_Zopp] in Hdown. nia.
        * specialize (Hup ltac:(lia)). destruct Hpow; [|lia].
          cbn [cond_Zopp] in Hup. nia. }
  clear Hup Hdown.
  assert (Hp : Zpos p <= 2 ^ 53) by (destruct s; cbn [cond_Zopp] in Hn; lia).
  (* the digits of the mantissa and of the integer differ by the exponent *)
  assert (Hd : digits m + e = digits p).
  { destruct (Z_lt_le_dec e 0) as [Hneg|Hpos].
    - assert (E : m = lsl p (- e))
        by (apply Pos2Z.inj; rewrite Zpos_lsl by lia; apply Hdown'; lia).
      rewrite E, digits_lsl by lia. lia.
    - assert (E : p = lsl m e)
        by (apply Pos2Z.inj; rewrite Zpos_lsl by lia; symmetry; apply Hup'; lia).
      rewrite E, digits_lsl by lia. lia. }
  rewrite Hd in Hcanon. pose proof (digits_pos p) as Hd1.
  assert (He : e = digits p - 53) by lia.
  clear Hcanon Hd.
  destruct (Z.eq_dec (Zpos p) (2 ^ 53)) as [Etop|Hbelow].
  - (* the boundary: [2 ^ 53 = 2 ^ 52 * 2 ^ 1] *)
    assert (Hdig : digits p = 54) by (apply digits_unique; rewrite Etop; lia).
    assert (E1 : e = 1) by lia. clear He. subst e.
    assert (m = 4503599627370496%positive).
    { apply Pos2Z.inj. specialize (Hup' ltac:(lia)). rewrite Etop in Hup'.
      change (2 ^ 1) with 2 in Hup'. change (2 ^ 53) with (4503599627370496 * 2) in Hup'.
      lia. }
    subst m. assert (p = 9007199254740992%positive) by (apply Pos2Z.inj; exact Etop).
    subst p. destruct s; reflexivity.
  - assert (Hlt : Zpos p < 2 ^ 53) by lia.
    pose proof (digits_le_53 p Hlt) as Hd53.
    assert (Em : m = normal53 p).
    { apply Pos2Z.inj. unfold normal53. rewrite Zpos_lsl by lia.
      rewrite (Hdown' ltac:(lia)). f_equal. f_equal. lia. }
    rewrite Z2SF_small by (destruct s; cbn [cond_Zopp]; lia).
    subst m e. destruct s; reflexivity.
Qed.

(** So a number whose value is a non-zero integer of magnitude at most
    [2 ^ 53] is the number the literal denotes. *)
Lemma number_unique x n :
  n <> 0 -> Z.abs n <= 2 ^ 53 -> has_value x (inject_Z n) -> x = number_of_Z n.
Proof.
  intros Hn0 Hn H. unfold has_value, real_value in H.
  pose proof (Prim2SF_valid x) as Hvalid.
  rewrite <- (SF2Prim_Prim2SF x). unfold number_of_Z. f_equal.
  destruct (Prim2SF x) as [s| | |s m e]; try contradiction.
  - exfalso. apply Hn0. symmetry. now apply inject_Z_injective.
  - now apply finite_integer_unique.
Qed.

(** A count of value zero is [0] or [-0]. *)
Lemma zero_unique x :
  has_value x 0 -> x = 0%float \/ x = (-0)%float.
Proof.
  intros H. unfold has_value, real_value in H.
  pose proof (Prim2SF_valid x) as Hvalid.
  rewrite <- (SF2Prim_Prim2SF x).
  destruct (Prim2SF x) as [s| | |s m e]; try contradiction.
  - destruct s; [now right|now left].
  - exfalso. apply (value_as_integer s m e 0) in H as [Hup Hdown].
    destruct (Z_lt_le_dec e 0).
    + specialize (Hdown ltac:(lia)). destruct s; cbn in Hdown; lia.
    + specialize (Hup ltac:(lia)).
      assert (0 < 2 ^ e) by (apply Z.pow_pos_nonneg; lia).
      destruct s; cbn [cond_Zopp] in Hup; nia.
Qed.

Lemma updater_small n :
  Z.abs n < 2 ^ 53 -> Z.abs (n + 1) < 2 ^ 53 ->
  App.updater (number_of_Z n) = number_of_Z (n + 1).
Proof.
  intros Hn Hn1. apply Prim2SF_inj. unfold App.updater.
  rewrite add_spec, !Prim2SF_number_of_Z by assumption.
  change (Prim2SF 1) with (SFint 1).
  now apply SFadd_int_one.
Qed.

(** In the range where both [n] and [n + 1] are at most [2 ^ 53] in
    magnitude the updater is exact. *)
Lemma updater_exact n :
  - 2 ^ 53 <= n < 2 ^ 53 -> App.updater (number_of_Z n) = number_of_Z (n + 1).
Proof.
  intros H.
  destruct (Z.eq_dec n (- 2 ^ 53)) as [->|Hlo]; [vm_compute; reflexivity|].
  destruct (Z.eq_dec n (2 ^ 53 - 1)) as [->|Hhi]; [vm_compute; reflexivity|].
  apply updater_small; lia.
Qed.

(** At [2 ^ 53] the sum [2 ^ 53 + 1] is not a binary64 value and rounds
    back to [2 ^ 53]. *)
Lemma updater_stuck : App.updater (number_of_Z (2 ^ 53)) = number_of_Z (2 ^ 53).
Proof. vm_compute. reflexivity. Qed.

Lemma clicks_exact k :
  Z.of_nat k <= 2 ^ 53 -> App.clicks k = number_of_Z (Z.of_nat k).
Proof.
  induction k as [|k IH]; intros Hk; [reflexivity|].
  cbn [App.clicks]. rewrite IH by lia.
  unfold App.onClick, App.setCount.
  rewrite updater_exact by lia. f_equal. lia.
Qed.

Lemma clicks_saturated k :
  2 ^ 53 <= Z.of_nat k -> App.clicks k = number_of_Z (2 ^ 53).
Proof.
  induction k as [|k IH]; intros Hk; [cbn in Hk; lia|].
  destruct (Z.eq_dec (Z.of_nat (S k)) (2 ^ 53)) as [E|N].
  - rewrite clicks_exact by lia. now rewrite E.
  - cbn [App.clicks]. rewrite IH by lia. exact updater_stuck.
Qed.

Lemma clicks_monotone k : (App.clicks k <=? App.clicks (S k))%float = true.
Proof.
  destruct (Z_lt_le_dec (Z.of_nat (S k)) (2 ^ 53)) as [L|G].
  - rewrite !clicks_exact by lia. apply number_of_Z_leb; lia.
  - destruct (Z.eq_dec (Z.of_nat (S k)) (2 ^ 53)) as [E|N].
    + rewrite !clicks_exact by lia. rewrite E.
      replace (Z.of_nat k) with (2 ^ 53 - 1) by lia. vm_compute. reflexivity.
    + rewrite !clicks_saturated by lia. vm_compute. reflexivity.
Qed.

(** C10, as stated, fails at [n = 2 ^ 53 = 9007199254740992]: that
    integer is a number, and the handler maps it to itself, not to
    [n + 1]. *)
Lemma counter_not_exact_at_2_53 :
  has_value (number_of_Z 9007199254740992) (inject_Z 9007199254740992)
  /\ App.onClick (number_of_Z 9007199254740992) = number_of_Z 9007199254740992
  /\ ~ has_value (App.onClick (number_of_Z 9007199254740992))
         (inject_Z (9007199254740992 + 1)).
Proof.
  split; [vm_compute; reflexivity|].
  split; [vm_compute; reflexivity|].
  vm_compute. discriminate.
Qed.

(** C10 (amended): for every integer [n] with [- 2 ^ 53 <= n < 2 ^ 53]
    (each of them is a number) the button's handler maps a count of
    value [n] to a count of value [n + 1]; hence, from the initial count
    [0], after [k <= 2 ^ 53] clicks the displayed count is [k]; and over
    any number of clicks the count never decreases. *)
Theorem counter_exact_on_safe_integers (count : number) (n : Z) (k : nat) :
  - 2 ^ 53 <= n < 2 ^ 53 ->
  has_value count (inject_Z n) ->
  Z.of_nat k <= 2 ^ 53 ->
  (has_value (number_of_Z n) (inject_Z n)
   /\ has_value (App.onClick count) (inject_Z (n + 1)))
  /\ (App.buttonCount (App.render (App.clicks k)) = number_of_Z (Z.of_nat k)
      /\ has_value (App.clicks k) (inject_Z (Z.of_nat k)))
  /\ (forall j : nat, (App.clicks j <=? App.clicks (S j))%float = true).
Proof.
  intros Hn Hcount Hk. repeat split.
  - apply has_value_number_of_Z. lia.
  - destruct (Z.eq_dec n 0) as [->|Hn0].
    + destruct (zero_unique count Hcount) as [->| ->]; vm_compute; reflexivity.
    + rewrite (number_unique count n Hn0) by (assumption || lia).
      unfold App.onClick, App.setCount. rewrite updater_exact by assumption.
      apply has_value_number_of_Z. lia.
  - cbn [App.render App.buttonCount]. now apply clicks_exact.
  - rewrite clicks_exact by assumption. apply has_value_number_of_Z. lia.
  - exact clicks_monotone.
Qed.

Lemma counter_exact_on_safe_integers_witness :
  (has_value (number_of_Z 41) (inject_Z 41)
   /\ has_value (App.onClick 41%float) (inject_Z (41 + 1)))
  /\ (App.buttonCount (App.render (App.clicks 3)) = number_of_Z (Z.of_nat 3)
      /\ has_value (App.clicks 3) (inject_Z (Z.of_nat 3)))
  /\ (forall j : nat, (App.clicks j <=? App.clicks (S j))%float = true).
Proof.
  apply (counter_exact_on_safe_integers 41%float 41 3).
  - split; lia.
  - vm_compute. reflexivity.
  - vm_compute. discriminate.
Defined.

(** The first clicks, and the handler around [2 ^ 53]. *)
Example counter_samples :
  App.clicks 0 = 0%float
  /\ App.clicks 1 = 1%float
  /\ App.clicks 5 = 5%float
  /\ App.onClick 9007199254740991%float = 9007199254740992%float
  /\ App.onClick 9007199254740992%float = 9007199254740992%float
  /\ App.onClick (-9007199254740992)%float = (-9007199254740991)%float.
Proof. repeat split. Qed.

End Counter.

(** * The string literal unions *)

Section TagSets.

Lemma mem_In k l : mem k l = true <-> In k l.
Proof.
  unfold mem. rewrite existsb_exists. split.
  - intros (x & Hx & E). apply String.eqb_eq in E. now subst.
  - intros H. exists k. split; [assumption|apply String.eqb_refl].
Qed.

Lemma mem_not_In k l : mem k l = false <-> ~ In k l.
Proof.
  rewrite <- mem_In. destruct (mem k l); split; congruence.
Qed.

(** A union's parser is a search among its members, so the five
    conditions follow from three facts checked by enumeration. *)
Lemma closed_tag_set_intro {A : Type} (tag : A -> string) (all : list A)
  (literals : list string) :
  (forall v, In v all) ->
  map tag all = literals ->
  NoDup literals ->
  closed_tag_set tag (fun s => find (fun v => String.eqb (tag v) s) all) literals.
Proof.
  intros Hall Hmap Hnd.
  assert (Hinj : forall v w, tag v = tag w -> v = w).
  { intros v w E. rewrite <- Hmap in Hnd.
    pose proof (Hall v) as Hv. pose proof (Hall w) as Hw.
    clear Hall Hmap. induction all as [|a l IH]; [contradiction|].
    cbn [map] in Hnd. inversion Hnd as [|? ? Hna Hnl]; subst.
    destruct Hv as [->|Hv], Hw as [->|Hw]; auto.
    - exfalso. apply Hna. rewrite E. now apply in_map.
    - exfalso. apply Hna. rewrite <- E. now apply in_map. }
  assert (Hfind : forall s v,
             find (fun v => String.eqb (tag v) s) all = Some v <-> tag v = s).
  { intros s v. split.
    - intros H. apply find_some in H as [_ H]. now apply String.eqb_eq.
    - intros E.
      destruct (find (fun v0 => String.eqb (tag v0) s) all) as [w|] eqn:F.
      + apply find_some in F as [_ F]. apply String.eqb_eq in F.
        f_equal. apply Hinj. congruence.
      + pose proof (find_none _ _ F v (Hall v)) as N. cbn in N.
        rewrite E, String.eqb_refl in N. discriminate. }
  repeat split.
  - intros v. rewrite <- Hmap. apply in_map, Hall.
  - intros s Hs. rewrite <- Hmap in Hs. apply in_map_iff in Hs as (v & E & _).
    now exists v.
  - exact Hinj.
  - apply Hfind.
  - apply Hfind.
  - destruct (find (fun v => String.eqb (tag v) s) all) as [w|] eqn:F;
      [|reflexivity].
    exfalso. apply H. apply Hfind in F. rewrite <- F, <- Hmap.
    apply in_map, Hall.
  - intros v E. apply H. rewrite <- E, <- Hmap. apply in_map, Hall.
Qed.

(** C4: the four tag sets are closed and exactly the listed literals: a
    Message's type is one of text/image/file, a Notification's type one
    of like/comment/follow/mention/message, a SearchFilters scope one of
    users/posts/all and a sort order one of recent/popular/relevance;
    any other string is the tag of no member and is rejected by the
    parser. *)
Theorem tag_sets_closed :
  closed_tag_set MessageType.tag MessageType.parse ["text"; "image"; "file"]
  /\ closed_tag_set NotificationType.tag NotificationType.parse
       ["like"; "comment"; "follow"; "mention"; "message"]
  /\ closed_tag_set SearchScope.tag SearchScope.parse ["users"; "posts"; "all"]
  /\ closed_tag_set SortOrder.tag SortOrder.parse
       ["recent"; "popular"; "relevance"]
  /\ (forall m : Message.t,
        In (MessageType.tag (Message.type m)) ["text"; "image"; "file"])
  /\ (forall n : Notification.t,
        In (NotificationType.tag (Notification.type n))
          ["like"; "comment"; "follow"; "mention"; "message"])
  /\ (forall f : SearchFilters.t,
        In (SearchScope.tag (SearchFilters.type f)) ["users"; "posts"; "all"]
        /\ In (SortOrder.tag (SearchFilters.sortBy f))
             ["recent"; "popular"; "relevance"]).
Proof.
  assert (H1 : closed_tag_set MessageType.tag MessageType.parse
                 ["text"; "image"; "file"]).
  { apply closed_tag_set_intro; [intros []; cbn; tauto|reflexivity|].
    repeat constructor; rewrite <- mem_not_In; reflexivity. }
  assert (H2 : closed_tag_set NotificationType.tag NotificationType.parse
                 ["like"; "comment"; "follow"; "mention"; "message"]).
  { apply closed_tag_set_intro; [intros []; cbn; tauto|reflexivity|].
    repeat constructor; rewrite <- mem_not_In; reflexivity. }
  assert (H3 : closed_tag_set SearchScope.tag SearchScope.parse
                 ["users"; "posts"; "all"]).
  { apply closed_tag_set_intro; [intros []; cbn; tauto|reflexivity|].
    repeat constructor; rewrite <- mem_not_In; reflexivity. }
  assert (H4 : closed_tag_set SortOrder.tag SortOrder.parse
                 ["recent"; "popular"; "relevance"]).
  { apply closed_tag_set_intro; [intros []; cbn; tauto|reflexivity|].
    repeat constructor; rewrite <- mem_not_In; reflexivity. }
  repeat match goal with |- _ /\ _ => split end; try assumption.
  - intros m. apply H1.
  - intros n. apply H2.
  - intros f. split; [apply H3|apply H4].
Qed.

(** The parsers on sample strings. *)
Example parse_samples :
  MessageType.parse "image" = Some MessageType.image
  /\ MessageType.parse "video" = None
  /\ NotificationType.parse "mention" = Some NotificationType.mention
  /\ NotificationType.parse "Like" = None
  /\ SearchScope.parse "all" = Some SearchScope.all_
  /\ SortOrder.parse "oldest" = None.
Proof. repeat split. Qed.

End TagSets.

(** * Required and optional properties *)

Section FieldPartition.

Lemma distinct_NoDup l : distinct l = true -> NoDup l.
Proof.
  induction l as [|k r IH]; cbn [distinct]; intros H; constructor.
  - apply andb_prop in H as [H _]. apply mem_not_In.
    now destruct (mem k r).
  - apply IH. now apply andb_prop in H as [_ H].
Qed.

Lemma forall_In {A : Type} (P : A -> Prop) (l : list A) :
  Forall P l -> forall k, In k l -> P k.
Proof. intros H. now apply Forall_forall. Qed.

End FieldPartition.

(** Every goal about the declaration table of one interface is a finite
    check: the names are literals, and a value's keys depend only on
    which of its optional properties are there. *)
Ltac by_cases_on_fields :=
  repeat match goal with
         | x : option _ |- _ => destruct x
         end.

Ltac check_In := apply mem_In; reflexivity.
Ltac check_not_In := apply mem_not_In; reflexivity.

Ltac for_each_name tac :=
  refine (forall_In _ _ _);
  repeat (apply Forall_cons; [cbv beta; tac|]); apply Forall_nil.

Ltac check_partition bare full :=
  unfold partitions_fields; cbn [fields keys];
  split; [apply distinct_NoDup; reflexivity|];
  split; [for_each_name
            ltac:(rewrite <- mem_In, <- mem_not_In; vm_compute; split; congruence)|];
  split; [intros x; destruct x; by_cases_on_fields; for_each_name check_In|];
  split; [for_each_name ltac:(intros x; destruct x; by_cases_on_fields; check_In)|];
  for_each_name ltac:(split; [exists bare; check_not_In|exists full; check_In]).

Ltac check_tracks :=
  unfold tracks; intros x; destruct x; by_cases_on_fields;
  (split;
   [intros H; first [cbn; discriminate
                    |apply mem_In in H; vm_compute in H; discriminate H]
   |intros H; first [check_In|exfalso; apply H; reflexivity]]).

Section FieldPartitionClaims.

Lemma User_partition : partitions_fields User.t.
Proof. check_partition bare_user full_user. Qed.

Lemma Comment_partition : partitions_fields Comment.t.
Proof. check_partition bare_comment full_comment. Qed.

Lemma Post_partition : partitions_fields Post.t.
Proof. check_partition bare_post full_post. Qed.

Lemma Message_partition : partitions_fields Message.t.
Proof. check_partition bare_message full_message. Qed.

Lemma Conversation_partition : partitions_fields Conversation.t.
Proof. check_partition bare_conversation full_conversation. Qed.

Lemma Notification_partition : partitions_fields Notification.t.
Proof. check_partition bare_notification full_notification. Qed.

Lemma ApiResponse_partition (T : Type) (payload : T) :
  partitions_fields (ApiResponse.t T).
Proof. check_partition (@bare_response T) (full_response payload). Qed.

Lemma Pagination_partition : partitions_fields Pagination.t.
Proof. check_partition tt tt. Qed.

Lemma PaginatedResponse_partition (T : Type) :
  partitions_fields (PaginatedResponse.t T).
Proof. check_partition tt tt. Qed.

Lemma LoginForm_partition : partitions_fields LoginForm.t.
Proof. check_partition tt tt. Qed.

Lemma RegisterForm_partition : partitions_fields RegisterForm.t.
Proof. check_partition tt tt. Qed.

Lemma PostForm_partition (File : Type) : partitions_fields (PostForm.t File).
Proof. check_partition (@bare_post_form File) (@full_post_form File). Qed.

Lemma SearchFilters_partition : partitions_fields SearchFilters.t.
Proof. check_partition tt tt. Qed.

Lemma AppState_partition : partitions_fields AppState.t.
Proof. check_partition tt tt. Qed.

Lemma AuthContextType_partition (Promise : Type -> Type) :
  partitions_fields (AuthContextType.t Promise).
Proof. check_partition tt tt. Qed.

Lemma User_tracks :
  tracks "bio" User.bio /\ tracks "avatar" User.avatar
  /\ tracks "coverImage" User.coverImage /\ tracks "location" User.location
  /\ tracks "website" User.website.
Proof. repeat match goal with |- _ /\ _ => split end; check_tracks. Qed.

Lemma Post_tracks : tracks "images" Post.images /\ tracks "tags" Post.tags.
Proof. repeat match goal with |- _ /\ _ => split end; check_tracks. Qed.

Lemma other_entities_track :
  tracks "parentId" Comment.parentId
  /\ tracks "attachments" Message.attachments
  /\ tracks "lastMessage" Conversation.lastMessage
  /\ tracks "groupName" Conversation.groupName
  /\ tracks "groupImage" Conversation.groupImage
  /\ tracks "postId" Notification.postId
  /\ tracks "messageId" Notification.messageId.
Proof. repeat match goal with |- _ /\ _ => split end; check_tracks. Qed.

Lemma envelopes_track (T : Type) :
  tracks "data" (@ApiResponse.data T)
  /\ tracks "error" (@ApiResponse.error T)
  /\ tracks "message" (@ApiResponse.message T)
  /\ tracks "images" (@PostForm.images T)
  /\ tracks "tags" (@PostForm.tags T).
Proof. repeat match goal with |- _ /\ _ => split end; check_tracks. Qed.

(** C9: every record type of the catalogue partitions its declared
    properties into the required ones, present on every value, and the
    optional ones, which may be absent; an optional property that holds
    an empty string or an empty array is present, so absence is not the
    empty value.  For User the optional properties are exactly bio,
    avatar, coverImage, location and website, and the ten others are
    required. *)
Theorem record_fields_partition :
  (partitions_fields User.t /\ partitions_fields Post.t
   /\ partitions_fields Comment.t /\ partitions_fields Message.t
   /\ partitions_fields Conversation.t /\ partitions_fields Notification.t
   /\ (forall T : Type, T -> partitions_fields (ApiResponse.t T))
   /\ partitions_fields Pagination.t
   /\ (forall T : Type, partitions_fields (PaginatedResponse.t T))
   /\ partitions_fields LoginForm.t /\ partitions_fields RegisterForm.t
   /\ (forall File : Type, partitions_fields (PostForm.t File))
   /\ partitions_fields SearchFilters.t /\ partitions_fields AppState.t
   /\ (forall Promise : Type -> Type,
         partitions_fields (AuthContextType.t Promise)))
  /\ optional_names User.decl
     = ["bio"; "avatar"; "coverImage"; "location"; "website"]
  /\ required_names User.decl
     = ["id"; "username"; "email"; "firstName"; "lastName"; "followers";
        "following"; "createdAt"; "updatedAt"; "isVerified"]
  /\ (tracks "bio" User.bio /\ tracks "avatar" User.avatar
      /\ tracks "coverImage" User.coverImage /\ tracks "location" User.location
      /\ tracks "website" User.website)
  /\ (tracks "images" Post.images /\ tracks "tags" Post.tags)
  /\ (tracks "parentId" Comment.parentId
      /\ tracks "attachments" Message.attachments
      /\ tracks "lastMessage" Conversation.lastMessage
      /\ tracks "groupName" Conversation.groupName
      /\ tracks "groupImage" Conversation.groupImage
      /\ tracks "postId" Notification.postId
      /\ tracks "messageId" Notification.messageId)
  /\ (forall T : Type,
        tracks "data" (@ApiResponse.data T)
        /\ tracks "error" (@ApiResponse.error T)
        /\ tracks "message" (@ApiResponse.message T)
        /\ tracks "images" (@PostForm.images T)
        /\ tracks "tags" (@PostForm.tags T))
  /\ (forall u : User.t, User.bio u = Some "" -> In "bio" (keys u))
  /\ (forall u : User.t, User.bio u = None -> ~ In "bio" (keys u))
  /\ (forall p : Post.t, Post.images p = Some [] -> In "images" (keys p))
  /\ (forall p : Post.t, Post.images p = None -> ~ In "images" (keys p)).
Proof.
  split.
  { repeat match goal with |- _ /\ _ => split end.
    - exact User_partition.
    - exact Post_partition.
    - exact Comment_partition.
    - exact Message_partition.
    - exact Conversation_partition.
    - exact Notification_partition.
    - exact ApiResponse_partition.
    - exact Pagination_partition.
    - exact PaginatedResponse_partition.
    - exact LoginForm_partition.
    - exact RegisterForm_partition.
    - exact PostForm_partition.
    - exact SearchFilters_partition.
    - exact AppState_partition.
    - exact AuthContextType_partition. }
  split; [reflexivity|]. split; [reflexivity|].
  split; [exact User_tracks|]. split; [exact Post_tracks|].
  split; [exact other_entities_track|]. split; [exact envelopes_track|].
  destruct User_tracks as (Hbio & _). destruct Post_tracks as (Himg & _).
  repeat match goal with |- _ /\ _ => split end.
  - intros u E. apply Hbio. rewrite E. discriminate.
  - intros u E H. apply Hbio in H. now apply H.
  - intros q E. apply Himg. rewrite E. discriminate.
  - intros q E H. apply Himg in H. now apply H.
Qed.

(** The keys of two sample users: nothing optional, and everything
    optional present but empty. *)
Example user_keys_samples :
  keys bare_user
  = ["id"; "username"; "email"; "firstName"; "lastName"; "followers";
     "following"; "createdAt"; "updatedAt"; "isVerified"]
  /\ keys full_user
     = ["id"; "username"; "email"; "firstName"; "lastName"; "bio"; "avatar";
        "coverImage"; "followers"; "following"; "createdAt"; "updatedAt";
        "isVerified"; "location"; "website"]
  /\ User.bio full_user = Some "" /\ User.bio bare_user = None.
Proof. repeat split. Qed.

End FieldPartitionClaims.

(** * Pagination *)

Section PaginationClaims.

Lemma real_value_95 : exists q, real_value 95%float = Some q /\ (q == 95)%Q.
Proof. eexists. split; [vm_compute; reflexivity|reflexivity]. Qed.

Lemma real_value_20 : exists q, real_value 20%float = Some q /\ (q == 20)%Q.
Proof. eexists. split; [vm_compute; reflexivity|reflexivity]. Qed.

Lemma real_value_0 : real_value 0%float = Some 0%Q.
Proof. reflexivity. Qed.

Lemma Qceiling_95_20 q l : (q == 95)%Q -> (l == 20)%Q -> Qceiling (q / l) = 5.
Proof.
  intros -> ->. reflexivity.
Qed.

(** C1, as stated, fails: the declaration types the four metadata
    fields as numbers and relates none of them.  With [limit = 20 > 0]
    and [total = 95], a value may report [totalPages = 7]. *)
Lemma pagination_invariant_not_enforced :
  limit_positive (sample_pagination 1 7)
  /\ ~ pagination_invariant (sample_pagination 1 7).
Proof.
  split; [reflexivity|].
  intros (H & _). vm_compute in H. discriminate H.
Qed.

(** C1 (amended): for a PaginatedResponse value with [total = 95] and
    [limit = 20], the relation [totalPages = ceil(total / limit)] with
    [0 <= page <= totalPages] holds exactly when [totalPages] is [5] and
    [0 <= page <= 5], so that pages 0 through 5 are valid and page 6 is
    out of range; the declaration admits any numbers as [page] and
    [totalPages] next to them, so the relation is a condition on a
    value, not a property of every value. *)
Theorem pagination_scenario (T : Type) (r : PaginatedResponse.t T) :
  Pagination.total (PaginatedResponse.pagination r) = 95%float ->
  Pagination.limit (PaginatedResponse.pagination r) = 20%float ->
  (pagination_invariant (PaginatedResponse.pagination r)
   <-> has_value (Pagination.totalPages (PaginatedResponse.pagination r)) 5
       /\ in_range 0 5 (Pagination.page (PaginatedResponse.pagination r)))
  /\ (forall page totalPages : number,
        exists r' : PaginatedResponse.t T,
          PaginatedResponse.data r' = PaginatedResponse.data r
          /\ PaginatedResponse.pagination r' = sample_pagination page totalPages).
Proof.
  destruct r as [items p]. cbn [PaginatedResponse.pagination].
  intros Ht Hl. split.
  2:{ intros page totalPages.
      now exists (PaginatedResponse.mk items (sample_pagination page totalPages)). }
  unfold pagination_invariant, totalPages_is_ceiling, number_le, in_range,
    has_value.
  rewrite Ht, Hl, real_value_0.
  destruct real_value_95 as (q & -> & Hq).
  destruct real_value_20 as (l & -> & Hl').
  rewrite (Qceiling_95_20 q l) by assumption.
  change (inject_Z 5) with 5%Q.
  destruct (real_value (Pagination.page p)) as [pg|];
    destruct (real_value (Pagination.totalPages p)) as [tp|];
    try tauto.
  split.
  - intros (H1 & H2 & H3). repeat split; try assumption.
    rewrite <- H1. exact H3.
  - intros (H1 & H2 & H3). repeat split; try assumption.
    rewrite H1. exact H3.
Qed.

Lemma pagination_scenario_witness :
  (pagination_invariant
     (PaginatedResponse.pagination
        (PaginatedResponse.mk (@nil string) (sample_pagination 3 5)))
   <-> has_value 5%float 5 /\ in_range 0 5 3%float)
  /\ (forall page totalPages : number,
        exists r' : PaginatedResponse.t string,
          PaginatedResponse.data r' = []
          /\ PaginatedResponse.pagination r' = sample_pagination page totalPages).
Proof.
  apply (pagination_scenario string
           (PaginatedResponse.mk (@nil string) (sample_pagination 3 5)));
    reflexivity.
Defined.

(** Pages 0 through 5 are valid and page 6 is out of range on the value
    that reports [totalPages = 5]; no page is valid next to a wrong
    [totalPages]. *)
Example pagination_pages_0_to_5 :
  pagination_invariant (sample_pagination 0 5)
  /\ pagination_invariant (sample_pagination 1 5)
  /\ pagination_invariant (sample_pagination 2 5)
  /\ pagination_invariant (sample_pagination 3 5)
  /\ pagination_invariant (sample_pagination 4 5)
  /\ pagination_invariant (sample_pagination 5 5)
  /\ ~ pagination_invariant (sample_pagination 6 5)
  /\ ~ pagination_invariant (sample_pagination 6 7).
Proof.
  repeat match goal with |- _ /\ _ => split end;
    try (vm_compute; repeat split; discriminate).
  - intros (_ & _ & H). vm_compute in H. now apply H.
  - intros (H & _). vm_compute in H. discriminate H.
Qed.

End PaginationClaims.

(** * Conditions the declarations leave open *)

Section OpenConditions.

(** ** Conversation *)

(** C2, as stated, fails: a Conversation with no participant at all,
    [isGroup] being false, is a value of the declared type. *)
Lemma conversation_invariant_not_enforced :
  ~ conversation_invariant (sample_conversation [] false).
Proof. intros (H & _). now apply H. Qed.

(** C2 (amended): the Conversation declaration does not constrain the
    number of participants: every list of ids, the empty one included,
    is the participants list of a Conversation with either value of
    [isGroup], all other properties being free.  Among the stated
    conditions, the two on the count (exactly 2 when [isGroup] is false,
    at least 2 when it is true) imply that the list is non-empty. *)
Theorem conversation_participants_unconstrained
  (c : Conversation.t) (ps : list string) (g : bool) :
  (exists c' : Conversation.t,
      Conversation.participants c' = ps /\ Conversation.isGroup c' = g
      /\ Conversation.id c' = Conversation.id c
      /\ Conversation.lastMessage c' = Conversation.lastMessage c
      /\ Conversation.createdAt c' = Conversation.createdAt c
      /\ Conversation.updatedAt c' = Conversation.updatedAt c
      /\ Conversation.groupName c' = Conversation.groupName c
      /\ Conversation.groupImage c' = Conversation.groupImage c)
  /\ (conversation_counts c -> Conversation.participants c <> []).
Proof.
  split.
  - exists (Conversation.mk (Conversation.id c) ps (Conversation.lastMessage c)
              (Conversation.createdAt c) (Conversation.updatedAt c) g
              (Conversation.groupName c) (Conversation.groupImage c)).
    repeat split.
  - intros (Hdirect & Hgroup) E. rewrite E in Hdirect, Hgroup. cbn in *.
    destruct (Conversation.isGroup c).
    + specialize (Hgroup eq_refl). lia.
    + specialize (Hdirect eq_refl). discriminate.
Qed.

(** ** Message and Notification *)

(** C5, as stated, fails: a message from a user to itself and a
    notification triggered by its own recipient are values of the
    declared types. *)
Lemma self_addressed_records_admitted :
  ~ message_ids_differ (sample_message "u1" "u1")
  /\ ~ notification_ids_differ (sample_notification "u1" "u1").
Proof. split; intros H; now apply H. Qed.

(** C5 (amended): every Message carries a senderId and a receiverId, and
    every Notification a userId and a fromUserId, as independent
    strings: any two ids, equal or different, occur together in a
    record, all other properties being free; the two differ exactly when
    the strings chosen differ. *)
Theorem message_notification_ids_unconstrained
  (m : Message.t) (n : Notification.t) (a b : string) :
  (exists m' : Message.t,
      Message.senderId m' = a /\ Message.receiverId m' = b
      /\ (message_ids_differ m' <-> a <> b)
      /\ Message.id m' = Message.id m
      /\ Message.content m' = Message.content m
      /\ Message.type m' = Message.type m
      /\ Message.isRead m' = Message.isRead m
      /\ Message.createdAt m' = Message.createdAt m
      /\ Message.attachments m' = Message.attachments m)
  /\ (exists n' : Notification.t,
        Notification.userId n' = a /\ Notification.fromUserId n' = b
        /\ (notification_ids_differ n' <-> a <> b)
        /\ Notification.id n' = Notification.id n
        /\ Notification.type n' = Notification.type n
        /\ Notification.postId n' = Notification.postId n
        /\ Notification.messageId n' = Notification.messageId n
        /\ Notification.isRead n' = Notification.isRead n
        /\ Notification.createdAt n' = Notification.createdAt n).
Proof.
  split.
  - exists (Message.mk (Message.id m) a b (Message.content m) (Message.type m)
              (Message.isRead m) (Message.createdAt m) (Message.attachments m)).
    unfold message_ids_differ. cbn. repeat split; auto.
  - exists (Notification.mk (Notification.id n) a (Notification.type n) b
              (Notification.postId n) (Notification.messageId n)
              (Notification.isRead n) (Notification.createdAt n)).
    unfold notification_ids_differ. cbn. repeat split; auto.
Qed.

(** ** Post *)

Lemma minus_one_is_no_count (p : Post.t) :
  Post.shares p = (-1)%float -> ~ shares_is_count p.
Proof.
  intros E (n & Hn & Hv). unfold has_value in Hv. rewrite E in Hv.
  assert (R : exists q, real_value (-1)%float = Some q /\ (q == -1)%Q)
    by (eexists; split; [vm_compute; reflexivity|reflexivity]).
  destruct R as (q & Rq & Hq). rewrite Rq in Hv. rewrite Hq in Hv.
  unfold Qeq in Hv. cbn in Hv. lia.
Qed.

(** C6, as stated, fails: a Post with [shares = -1] and the same user
    twice among its likes is a value of the declared type. *)
Lemma post_invariant_not_enforced :
  ~ shares_is_count (sample_post ["u1"; "u1"] [] (-1))
  /\ ~ NoDup (Post.likes (sample_post ["u1"; "u1"] [] (-1)))
  /\ ~ post_invariant (sample_post ["u1"; "u1"] [] (-1)).
Proof.
  assert (H1 : ~ shares_is_count (sample_post ["u1"; "u1"] [] (-1)))
    by (apply minus_one_is_no_count; reflexivity).
  repeat split.
  - exact H1.
  - intros H. inversion H as [|? ? Hn _]; subst. apply Hn. now left.
  - intros (H & _). now apply H1.
Qed.

(** C6 (amended): the [shares] of a Post is a number and its [likes] a
    list of strings, neither constrained by the declaration: every
    number (negative, fractional, not finite) and every list of ids
    (with or without repetitions) occur together in a Post, all other
    properties being free. *)
Theorem post_shares_likes_unconstrained
  (p : Post.t) (s : number) (l : list string) :
  exists p' : Post.t,
    Post.shares p' = s /\ Post.likes p' = l
    /\ Post.id p' = Post.id p /\ Post.authorId p' = Post.authorId p
    /\ Post.content p' = Post.content p /\ Post.images p' = Post.images p
    /\ Post.comments p' = Post.comments p
    /\ Post.createdAt p' = Post.createdAt p
    /\ Post.updatedAt p' = Post.updatedAt p
    /\ Post.isPublic p' = Post.isPublic p /\ Post.tags p' = Post.tags p.
Proof.
  exists (Post.mk (Post.id p) (Post.authorId p) (Post.content p) (Post.images p)
            l (Post.comments p) s (Post.createdAt p) (Post.updatedAt p)
            (Post.isPublic p) (Post.tags p)).
  repeat split.
Qed.

(** Shares that are no count: negative, fractional, infinite, NaN. *)
Example shares_samples :
  shares_is_count (sample_post [] [] 3)
  /\ ~ shares_is_count (sample_post [] [] (-1))
  /\ ~ shares_is_count (sample_post [] [] infinity)
  /\ ~ shares_is_count (sample_post [] [] nan).
Proof.
  repeat split.
  - exists 3. split; [lia|]. vm_compute. reflexivity.
  - apply minus_one_is_no_count. reflexivity.
  - intros (n & _ & H). exact H.
  - intros (n & _ & H). exact H.
Qed.

(** ** ApiResponse *)

(** C7: the docstring of the interface promises that only one of the
    optional properties will be present, and the claim that exactly one
    of [data] and [error] is populated; the declared type does not hold
    either: it admits a response with none of the three properties and a
    response with both a payload and a non-empty error text. *)
Lemma api_response_neither_or_both :
  (~ exactly_one_populated (@bare_response nat)
   /\ present_count (@bare_response nat) = 0%nat)
  /\ (~ exactly_one_populated conflicting_response
      /\ data_populated conflicting_response
      /\ error_populated conflicting_response
      /\ present_count conflicting_response = 2%nat).
Proof.
  assert (He : error_populated conflicting_response)
    by (exists "failed"; split; [reflexivity|discriminate]).
  assert (Hd : data_populated conflicting_response) by discriminate.
  split; split.
  - intros [(H & _)|(_ & text & H & _)]; [now apply H|discriminate H].
  - reflexivity.
  - intros [(_ & H)|(H & _)]; now apply H.
  - repeat split; assumption.
Qed.

(** What the declared type admits: every choice of present or absent for
    each of data, error and message, with either value of the flag. *)
Lemma api_response_fields_independent (T : Type)
  (s : bool) (d : option T) (e m : option string) :
  exists r : ApiResponse.t T,
    ApiResponse.success r = s /\ ApiResponse.data r = d
    /\ ApiResponse.error r = e /\ ApiResponse.message r = m
    /\ (data_populated r <-> d <> None)
    /\ (error_populated r <-> exists text, e = Some text /\ text <> "").
Proof.
  exists (ApiResponse.mk s d e m).
  unfold data_populated, error_populated. cbn. repeat split; auto.
Qed.

(** The four combinations, on responses with a natural number as payload. *)
Example api_response_combinations :
  (~ data_populated (ApiResponse.mk true (@None nat) None None)
   /\ ~ error_populated (ApiResponse.mk true (@None nat) None None))
  /\ exactly_one_populated (ApiResponse.mk true (Some 1%nat) None None)
  /\ exactly_one_populated (ApiResponse.mk false (@None nat) (Some "failed") None)
  /\ (data_populated conflicting_response
      /\ error_populated conflicting_response).
Proof.
  repeat split.
  - intros H. now apply H.
  - intros (text & H & _). discriminate H.
  - left. split; [discriminate|]. intros (text & H & _). discriminate H.
  - right. split; [intros H; now apply H|].
    exists "failed". split; [reflexivity|discriminate].
  - discriminate.
  - exists "failed". split; [reflexivity|discriminate].
Qed.

(** ** User *)

(** C8, as stated, fails: a User whose own id is among its followers
    and among the users it follows is a value of the declared type. *)
Lemma self_follow_admitted :
  In (User.id (sample_user "u1" None ["u1"] ["u2"; "u1"]))
     (User.followers (sample_user "u1" None ["u1"] ["u2"; "u1"]))
  /\ In (User.id (sample_user "u1" None ["u1"] ["u2"; "u1"]))
        (User.following (sample_user "u1" None ["u1"] ["u2"; "u1"]))
  /\ ~ no_self_follow (sample_user "u1" None ["u1"] ["u2"; "u1"]).
Proof.
  repeat split; try check_In.
  intros (H & _). apply H. check_In.
Qed.

(** C8 (amended): the [followers] and [following] of a User are lists of
    strings that the declaration does not relate to the user's [id]:
    every two lists, containing the id or not, are the lists of a User
    with that id, all other properties being free. *)
Theorem user_follow_lists_unconstrained
  (u : User.t) (fs fg : list string) :
  exists u' : User.t,
    User.id u' = User.id u
    /\ User.followers u' = fs /\ User.following u' = fg
    /\ (no_self_follow u' <-> ~ In (User.id u) fs /\ ~ In (User.id u) fg)
    /\ User.username u' = User.username u /\ User.email u' = User.email u
    /\ User.firstName u' = User.firstName u
    /\ User.lastName u' = User.lastName u
    /\ User.bio u' = User.bio u /\ User.avatar u' = User.avatar u
    /\ User.coverImage u' = User.coverImage u
    /\ User.createdAt u' = User.createdAt u
    /\ User.updatedAt u' = User.updatedAt u
    /\ User.isVerified u' = User.isVerified u
    /\ User.location u' = User.location u
    /\ User.website u' = User.website u.
Proof.
  exists (User.mk (User.id u) (User.username u) (User.email u)
            (User.firstName u) (User.lastName u) (User.bio u) (User.avatar u)
            (User.coverImage u) fs fg (User.createdAt u) (User.updatedAt u)
            (User.isVerified u) (User.location u) (User.website u)).
  unfold no_self_follow. cbn. repeat split; tauto.
Qed.

End OpenConditions.

(** * Reply chains *)

Section ReplyChains.

Variable comments : list Comment.t.

Lemma parent_In c p : parent comments c = Some p -> In p comments.
Proof.
  unfold parent, find_comment. destruct (Comment.parentId c); [|discriminate].
  intros H. now apply find_some in H.
Qed.

Lemma ancestor_In a c : ancestor comments a c -> In a comments.
Proof. induction 1; eauto using parent_In. Qed.

(** One more link above the ancestor. *)
Lemma ancestor_above a b c :
  ancestor comments a c -> parent comments a = Some b -> ancestor comments b c.
Proof.
  induction 1 as [c p Hp|c p a Hp Ha IH]; intros Hb.
  - eapply ancestor_further; [exact Hp|]. now apply ancestor_parent.
  - eapply ancestor_further; [exact Hp|]. now apply IH.
Qed.

(** A comment on a cycle has its parent on the cycle. *)
Lemma cycle_step c :
  ancestor comments c c ->
  exists p, parent comments c = Some p /\ ancestor comments p p.
Proof.
  intros H. inversion H as [c' p Hp|c' p a Hp Ha]; subst.
  - exists c. split; assumption.
  - exists p. split; [assumption|]. eapply ancestor_above; eassumption.
Qed.

(** From a comment on a cycle the walk never ends. *)
Lemma cycle_never_ends fuel :
  forall c, ancestor comments c c -> reply_chain fuel comments c = None.
Proof.
  induction fuel as [|fuel IH]; intros c Hc; [reflexivity|].
  destruct (cycle_step c Hc) as (p & Hp & Hpp).
  cbn [reply_chain]. rewrite Hp, (IH p Hpp). reflexivity.
Qed.

(** So termination of all walks is a test of acyclicity. *)
Lemma terminating_acyclic :
  (forall c, In c comments ->
             reply_chain (List.length comments) comments c <> None) ->
  acyclic comments.
Proof.
  intros H c Hc Hcycle. apply (H c Hc). now apply cycle_never_ends.
Qed.

(** What a finished walk returns. *)
Lemma reply_chain_spec fuel :
  forall c l,
    reply_chain fuel comments c = Some l ->
    hd_error l = Some c
    /\ (List.length l <= fuel)%nat
    /\ (forall x, In x l -> x = c \/ ancestor comments x c).
Proof.
  induction fuel as [|fuel IH]; intros c l H; [discriminate|].
  cbn [reply_chain] in H. destruct (parent comments c) as [p|] eqn:Hp.
  - destruct (reply_chain fuel comments p) as [l'|] eqn:Hl; [|discriminate].
    injection H as <-. destruct (IH p l' Hl) as (_ & Hlen & Hanc).
    repeat split; [cbn; lia|].
    intros x [->|Hx]; [now left|right].
    destruct (Hanc x Hx) as [->|Hxp].
    + now apply ancestor_parent.
    + eapply ancestor_further; eassumption.
  - injection H as <-. repeat split; [cbn; lia|].
    intros x [->|[]]. now left.
Qed.

Hypothesis no_cycle : acyclic comments.

(** The walk with the comments seen so far: they are distinct comments
    of the post below [c], so they and the fuel left cover the post. *)
Lemma reply_chain_terminates_from fuel :
  forall c seen,
    In c comments -> incl seen comments -> NoDup seen ->
    (forall s, In s seen -> ancestor comments c s) ->
    (List.length comments <= fuel + List.length seen)%nat ->
    exists l, reply_chain fuel comments c = Some l /\ NoDup l
              /\ (forall x, In x l -> ~ In x seen).
Proof.
  induction fuel as [|fuel IH]; intros c seen Hc Hincl Hnd Hbelow Hlen.
  - exfalso.
    assert (Hfresh : ~ In c seen).
    { intros Hin. exact (no_cycle c Hc (Hbelow c Hin)). }
    assert (Hle : (List.length (c :: seen) <= List.length comments)%nat).
    { apply NoDup_incl_length; [now constructor|].
      intros x [<-|Hx]; auto. }
    cbn in Hle, Hlen. lia.
  - assert (Hfresh : ~ In c seen).
    { intros Hin. exact (no_cycle c Hc (Hbelow c Hin)). }
    cbn [reply_chain]. destruct (parent comments c) as [p|] eqn:Hp.
    + destruct (IH p (c :: seen)) as (l & Hl & Hndl & Hout).
      * eapply parent_In; eassumption.
      * intros x [<-|Hx]; auto.
      * now constructor.
      * intros s [<-|Hs]; [now apply ancestor_parent|].
        eapply ancestor_above; [apply Hbelow|]; eassumption.
      * cbn. lia.
      * exists (c :: l). rewrite Hl. repeat split.
        -- constructor; [|assumption]. intros Hin. apply (Hout c Hin). now left.
        -- intros x [<-|Hx]; [assumption|].
           intros Hin. apply (Hout x Hx). now right.
    + exists [c]. repeat split.
      * constructor; [intros []|constructor].
      * intros x [<-|[]]. assumption.
Qed.

End ReplyChains.

Section ReplyChainClaims.

(** C3, as stated, fails: a comment may name itself as its parent.  It
    is then its own ancestor and the walk is still going after any
    number of steps. *)
Lemma self_reply_never_terminates :
  In (sample_comment "c1" (Some "c1"))
     (Post.comments (sample_post [] [sample_comment "c1" (Some "c1")] 0))
  /\ ancestor (Post.comments (sample_post [] [sample_comment "c1" (Some "c1")] 0))
       (sample_comment "c1" (Some "c1")) (sample_comment "c1" (Some "c1"))
  /\ (forall fuel,
        reply_chain fuel
          (Post.comments (sample_post [] [sample_comment "c1" (Some "c1")] 0))
          (sample_comment "c1" (Some "c1")) = None).
Proof.
  assert (H : ancestor [sample_comment "c1" (Some "c1")]
                (sample_comment "c1" (Some "c1"))
                (sample_comment "c1" (Some "c1")))
    by (apply ancestor_parent; reflexivity).
  repeat split.
  - now left.
  - exact H.
  - intros fuel. now apply cycle_never_ends.
Qed.

(** C3 (amended): for every Post in which no comment is its own
    ancestor, following the parentId links from any of its comments
    terminates without revisiting a comment, after at most as many
    comments as the post has; the declarations themselves do not
    exclude a cycle. *)
Theorem acyclic_reply_chain_terminates (p : Post.t) (c : Comment.t) :
  acyclic (Post.comments p) ->
  In c (Post.comments p) ->
  exists l,
    reply_chain (List.length (Post.comments p)) (Post.comments p) c = Some l
    /\ hd_error l = Some c
    /\ NoDup l
    /\ incl l (Post.comments p)
    /\ (List.length l <= List.length (Post.comments p))%nat.
Proof.
  intros Hacyclic Hc.
  destruct (reply_chain_terminates_from (Post.comments p) Hacyclic
              (List.length (Post.comments p)) c [])
    as (l & Hl & Hnd & _).
  - assumption.
  - intros x [].
  - constructor.
  - intros s [].
  - cbn. lia.
  - exists l. destruct (reply_chain_spec _ _ _ _ Hl) as (Hhd & Hlen & Hanc).
    repeat split; try assumption.
    intros x Hx. destruct (Hanc x Hx) as [->|Ha]; [assumption|].
    eapply ancestor_In; eassumption.
Qed.

Lemma acyclic_reply_chain_terminates_witness :
  exists l,
    reply_chain 3
      [sample_comment "c1" None; sample_comment "c2" (Some "c1");
       sample_comment "c3" (Some "c2")]
      (sample_comment "c3" (Some "c2")) = Some l
    /\ hd_error l = Some (sample_comment "c3" (Some "c2"))
    /\ NoDup l
    /\ incl l [sample_comment "c1" None; sample_comment "c2" (Some "c1");
               sample_comment "c3" (Some "c2")]
    /\ (List.length l <= 3)%nat.
Proof.
  apply (acyclic_reply_chain_terminates
           (sample_post []
              [sample_comment "c1" None; sample_comment "c2" (Some "c1");
               sample_comment "c3" (Some "c2")] 0)
           (sample_comment "c3" (Some "c2"))).
  - apply terminating_acyclic. cbn [Post.comments sample_post].
    intros c [<-|[<-|[<-|[]]]]; vm_compute; discriminate.
  - cbn. auto.
Defined.

(** The chain of the third comment of the sample thread. *)
Example reply_chain_sample :
  reply_chain 3
    [sample_comment "c1" None; sample_comment "c2" (Some "c1");
     sample_comment "c3" (Some "c2")]
    (sample_comment "c3" (Some "c2"))
  = Some [sample_comment "c3" (Some "c2"); sample_comment "c2" (Some "c1");
          sample_comment "c1" None].
Proof. reflexivity. Qed.

End ReplyChainClaims.

(** * Beyond the stated claims: the counter over any number of clicks *)

Section CounterBeyond.

Lemma has_value_unique x a b : has_value x a -> has_value x b -> (a == b)%Q.
Proof.
  unfold has_value. destruct (real_value x) as [v|]; [|contradiction].
  intros Ha Hb. now rewrite <- Ha, <- Hb.
Qed.

(** X1: after [k] clicks, for any [k], the count is the number
    [min k (2 ^ 53)]: always a finite, non-negative integer value, never
    above [2 ^ 53], and that is what the button displays. *)
Theorem count_is_min_of_clicks (k : nat) :
  App.clicks k = number_of_Z (Z.min (Z.of_nat k) (2 ^ 53))
  /\ has_value (App.clicks k) (inject_Z (Z.min (Z.of_nat k) (2 ^ 53)))
  /\ App.buttonCount (App.render (App.clicks k))
     = number_of_Z (Z.min (Z.of_nat k) (2 ^ 53)).
Proof.
  assert (E : App.clicks k = number_of_Z (Z.min (Z.of_nat k) (2 ^ 53))).
  { destruct (Z_lt_le_dec (Z.of_nat k) (2 ^ 53)) as [L|G].
    - rewrite Z.min_l by lia. apply clicks_exact. lia.
    - rewrite Z.min_r by lia. now apply clicks_saturated. }
  repeat split.
  - exact E.
  - rewrite E. apply has_value_number_of_Z. lia.
  - exact E.
Qed.

(** X2: a click changes the count exactly when fewer than [2 ^ 53]
    clicks came before it; from then on the next state is identical to
    the current one. *)
Theorem click_changes_count_iff (k : nat) :
  App.clicks (S k) <> App.clicks k <-> Z.of_nat k < 2 ^ 53.
Proof.
  split.
  - intros Hne. destruct (Z_lt_le_dec (Z.of_nat k) (2 ^ 53)) as [L|G]; [exact L|].
    exfalso. apply Hne. rewrite !clicks_saturated by lia. reflexivity.
  - intros L E.
    assert (H1 : has_value (App.clicks (S k)) (inject_Z (Z.of_nat (S k))))
      by (rewrite clicks_exact by lia; apply has_value_number_of_Z; lia).
    assert (H0 : has_value (App.clicks k) (inject_Z (Z.of_nat k)))
      by (rewrite clicks_exact by lia; apply has_value_number_of_Z; lia).
    rewrite E in H1. pose proof (has_value_unique _ _ _ H1 H0) as Q.
    apply (proj1 (inject_Z_injective _ _)) in Q. lia.
Qed.

End CounterBeyond.

(** * Beyond the stated claims: where a click lands *)

(** The tree is finite: a statement over all paths is settled by
    following the path index by index until it leaves the tree. *)
Ltac walk_path :=
  cbn -[String.eqb];
  lazymatch goal with
  | |- context [nth_error (_ :: _) ?n] => is_var n; destruct n; walk_path
  | |- context [nth_error [] ?n] => is_var n; destruct n; walk_path
  | |- context [Jsx.bubble (Jsx.Element _ _ _ _) ?p] =>
      is_var p; destruct p as [|? ?]; walk_path
  | |- context [Jsx.bubble (Jsx.Text _) ?p] =>
      is_var p; destruct p as [|? ?]; walk_path
  | |- context [Jsx.bubble (Jsx.Value _) ?p] =>
      is_var p; destruct p as [|? ?]; walk_path
  | |- context [Jsx.bubble (Jsx.Fragment _) ?p] =>
      is_var p; destruct p as [|? ?]; walk_path
  | |- context [Jsx.trail (Jsx.Element _ _ _ _) ?p] =>
      is_var p; destruct p as [|? ?]; walk_path
  | |- context [Jsx.trail (Jsx.Text _) ?p] =>
      is_var p; destruct p as [|? ?]; walk_path
  | |- context [Jsx.trail (Jsx.Value _) ?p] =>
      is_var p; destruct p as [|? ?]; walk_path
  | |- context [Jsx.trail (Jsx.Fragment _) ?p] =>
      is_var p; destruct p as [|? ?]; walk_path
  | |- _ => idtac
  end.

Section ClickTargets.

Variables viteLogo reactLogo : string.

Lemma dispatch_on_view {S : Type} (h : S -> S) (count : number)
  (path : list nat) (s : S) :
  Jsx.dispatch (AppTree.view viteLogo reactLogo h count) path s
  = (if Jsx.inside "button" (AppTree.view viteLogo reactLogo h count) path
     then h s else s).
Proof.
  unfold Jsx.dispatch, Jsx.inside, AppTree.view. walk_path; reflexivity.
Qed.

Lemma paths_inside_button {S : Type} (h : S) (count : number) (path : list nat) :
  Jsx.inside "button" (AppTree.view viteLogo reactLogo h count) path = true
  <-> In path [[2; 0]; [2; 0; 0]; [2; 0; 1]]%nat.
Proof.
  unfold Jsx.inside, AppTree.view.
  walk_path;
    (split; [intros H; first [discriminate H|cbn; tauto]
            |intros H; cbn in H; first [reflexivity|intuition discriminate]]).
Qed.

(** X3: whatever the handler of the button does, a click anywhere in the
    tree of [App] runs it once when the click lands on the button or
    inside it (the button, its text, its number) and leaves the state
    untouched otherwise, also when the path leads to no node. *)
Theorem only_the_button_reacts {S : Type} (h : S -> S) (count : number)
  (path : list nat) (s : S) :
  Jsx.dispatch (AppTree.view viteLogo reactLogo h count) path s
  = (if Jsx.inside "button" (AppTree.view viteLogo reactLogo h count) path
     then h s else s)
  /\ (Jsx.inside "button" (AppTree.view viteLogo reactLogo h count) path = true
      <-> In path [[2; 0]; [2; 0; 0]; [2; 0; 1]]%nat).
Proof.
  split; [apply dispatch_on_view|apply paths_inside_button].
Qed.

(** Clicks on the sample tree: on the button, on its number, on the
    heading, on a logo, outside the tree. *)
Example click_samples :
  Jsx.dispatch (AppTree.view "vite.svg" "react.svg" App.onClick 7) [2; 0]%nat 7%float
  = 8%float
  /\ Jsx.dispatch (AppTree.view "vite.svg" "react.svg" App.onClick 7) [2; 0; 1]%nat 7%float
     = 8%float
  /\ Jsx.dispatch (AppTree.view "vite.svg" "react.svg" App.onClick 7) [1]%nat 7%float
     = 7%float
  /\ Jsx.dispatch (AppTree.view "vite.svg" "react.svg" App.onClick 7) [0; 1; 0]%nat 7%float
     = 7%float
  /\ Jsx.dispatch (AppTree.view "vite.svg" "react.svg" App.onClick 7) [9; 9]%nat 7%float
     = 7%float.
Proof. repeat split. Qed.

(** ** Batched updates *)

Lemma step_click (path : list nat) (i : Runtime.Instance) :
  Runtime.step viteLogo reactLogo (Runtime.Click path) i
  = (if Jsx.inside "button" (Runtime.tree viteLogo reactLogo i) path
     then Runtime.onClick i else i).
Proof. apply dispatch_on_view. Qed.

Lemma flush_updaters n :
  forall shown,
    fold_left (fun s (f : number -> number) => f s) (repeat App.updater n)
      (App.clicks shown)
    = App.clicks (n + shown).
Proof.
  induction n as [|n IH]; intros shown; [reflexivity|].
  cbn [repeat fold_left].
  change (App.updater (App.clicks shown)) with (App.clicks (S shown)).
  rewrite IH. f_equal. lia.
Qed.

Lemma run_app (l1 l2 : list Runtime.action) (i : Runtime.Instance) :
  Runtime.run viteLogo reactLogo (l1 ++ l2) i
  = Runtime.run viteLogo reactLogo l2 (Runtime.run viteLogo reactLogo l1 i).
Proof. apply fold_left_app. Qed.

Lemma button_clicks_app (l1 l2 : list Runtime.action) :
  forall i,
    Runtime.button_clicks viteLogo reactLogo (l1 ++ l2) i
    = (Runtime.button_clicks viteLogo reactLogo l1 i
       + Runtime.button_clicks viteLogo reactLogo l2
           (Runtime.run viteLogo reactLogo l1 i))%nat.
Proof.
  induction l1 as [|a l1 IH]; intros i; [reflexivity|].
  cbn [app Runtime.button_clicks]. rewrite IH.
  change (Runtime.run viteLogo reactLogo (a :: l1) i)
    with (Runtime.run viteLogo reactLogo l1 (Runtime.step viteLogo reactLogo a i)).
  lia.
Qed.

Lemma split_snoc (actions : list Runtime.action) (a : Runtime.action) :
  Runtime.split_at_last_render (actions ++ [a])
  = match a with
    | Runtime.Rerender =>
        ((Runtime.rendered actions ++ Runtime.waiting actions
          ++ [Runtime.Rerender])%list, [])
    | Runtime.Click _ =>
        (Runtime.rendered actions, (Runtime.waiting actions ++ [a])%list)
    end.
Proof.
  unfold Runtime.split_at_last_render, Runtime.rendered, Runtime.waiting.
  rewrite fold_left_app. reflexivity.
Qed.

(** The split is a split: nothing is dropped, no render is waiting, and
    what is rendered ends with a render. *)
Lemma split_at_last_render_spec (actions : list Runtime.action) :
  (Runtime.rendered actions ++ Runtime.waiting actions)%list = actions
  /\ forallb Runtime.is_click (Runtime.waiting actions) = true
  /\ (Runtime.rendered actions = []
      \/ exists before,
           Runtime.rendered actions = (before ++ [Runtime.Rerender])%list).
Proof.
  induction actions as [|a actions IH] using rev_ind.
  - repeat split. now left.
  - destruct IH as (Happ & Hclicks & Hend).
    unfold Runtime.rendered, Runtime.waiting in *. rewrite split_snoc.
    unfold Runtime.rendered, Runtime.waiting.
    destruct a as [path|]; cbn [fst snd].
    + repeat split.
      * now rewrite app_assoc, Happ.
      * rewrite forallb_app, Hclicks. reflexivity.
      * exact Hend.
    + repeat split.
      * now rewrite app_nil_r, app_assoc, Happ.
      * right. exists actions. now rewrite app_assoc, Happ.
Qed.

(** What holds of the component after any actions: the state is the
    count of the button clicks rendered, and the queue is one updater
    for each button click since. *)
Lemma run_invariant (actions : list Runtime.action) :
  Runtime.state (Runtime.run viteLogo reactLogo actions Runtime.mount)
  = App.clicks
      (Runtime.button_clicks viteLogo reactLogo (Runtime.rendered actions)
         Runtime.mount)
  /\ Runtime.pending (Runtime.run viteLogo reactLogo actions Runtime.mount)
     = repeat App.updater
         (Runtime.button_clicks viteLogo reactLogo (Runtime.waiting actions)
            (Runtime.run viteLogo reactLogo (Runtime.rendered actions)
               Runtime.mount)).
Proof.
  induction actions as [|a actions IH] using rev_ind; [split; reflexivity|].
  destruct IH as (Hs & Hq).
  destruct (split_at_last_render_spec actions) as (Happ & _ & _).
  rewrite run_app. cbn [Runtime.run fold_left].
  unfold Runtime.rendered, Runtime.waiting. rewrite split_snoc.
  fold (Runtime.rendered actions). fold (Runtime.waiting actions).
  destruct a as [path|]; cbn [fst snd].
  - rewrite step_click, button_clicks_app, <- run_app, Happ.
    cbn [Runtime.button_clicks].
    destruct (Jsx.inside "button"
                (Runtime.tree viteLogo reactLogo
                   (Runtime.run viteLogo reactLogo actions Runtime.mount))
                path).
    + split; [exact Hs|]. cbn [Runtime.onClick Runtime.setCount Runtime.pending].
      rewrite Hq, <- repeat_cons.
      rewrite Nat.add_0_r, Nat.add_1_r. reflexivity.
    + split; [exact Hs|]. rewrite Hq. f_equal. lia.
  - split; [|reflexivity].
    cbn [Runtime.step Runtime.rerender Runtime.state].
    rewrite Hs, Hq, flush_updaters. f_equal.
    rewrite (button_clicks_app (Runtime.rendered actions)),
      (button_clicks_app (Runtime.waiting actions)).
    cbn [Runtime.button_clicks]. lia.
Qed.

(** X4: no click on the button is lost or counted twice, however clicks
    and renders interleave.  With [actions] split at its last render:
    the state is the count of the button clicks up to that render, the
    queue holds exactly one updater [count => count + 1] for each button
    click since, and the next render brings the state to the count of
    all the button clicks. *)
Theorem clicks_are_never_lost (actions : list Runtime.action) :
  ((Runtime.rendered actions ++ Runtime.waiting actions)%list = actions
   /\ forallb Runtime.is_click (Runtime.waiting actions) = true
   /\ (Runtime.rendered actions = []
       \/ exists before,
            Runtime.rendered actions = (before ++ [Runtime.Rerender])%list))
  /\ Runtime.state (Runtime.run viteLogo reactLogo actions Runtime.mount)
     = App.clicks
         (Runtime.button_clicks viteLogo reactLogo (Runtime.rendered actions)
            Runtime.mount)
  /\ Runtime.pending (Runtime.run viteLogo reactLogo actions Runtime.mount)
     = repeat App.updater
         (Runtime.button_clicks viteLogo reactLogo (Runtime.waiting actions)
            (Runtime.run viteLogo reactLogo (Runtime.rendered actions)
               Runtime.mount))
  /\ Runtime.state
       (Runtime.rerender (Runtime.run viteLogo reactLogo actions Runtime.mount))
     = App.clicks
         (Runtime.button_clicks viteLogo reactLogo actions Runtime.mount).
Proof.
  destruct (run_invariant actions) as (Hs & Hq).
  pose proof (split_at_last_render_spec actions) as Hsplit.
  repeat match goal with |- _ /\ _ => split end; try assumption;
    try apply Hsplit.
  cbn [Runtime.rerender Runtime.state]. rewrite Hs, Hq, flush_updaters.
  f_equal. destruct Hsplit as (Happ & _).
  rewrite Nat.add_comm, <- button_clicks_app, Happ. reflexivity.
Qed.

(** Three clicks on the button and one on the heading before any
    render, then a render. *)
Example batched_clicks_sample :
  Runtime.state
    (Runtime.run "vite.svg" "react.svg"
       [Runtime.Click [2; 0]; Runtime.Click [1]; Runtime.Click [2; 0; 0];
        Runtime.Click [2; 0]]%nat Runtime.mount)
  = 0%float
  /\ Runtime.state
       (Runtime.run "vite.svg" "react.svg"
          [Runtime.Click [2; 0]; Runtime.Click [1]; Runtime.Click [2; 0; 0];
           Runtime.Click [2; 0]; Runtime.Rerender]%nat Runtime.mount)
     = 3%float.
Proof. split; reflexivity. Qed.

End ClickTargets.
